(** * Recipe manager: the in-memory recipe store, the query filter and the
    rule-based suggestion generator

    Sources embedded here:
    - [lib/data.ts]  (the store: [convertFormDataToRecipe], [recipeStorage])
    - [app/api/recipes/route.ts]  (the POST / PUT / DELETE handlers)
    - [app/api/ai/recipe-suggestions/route.ts]  ([generateSmartSuggestions])

    JavaScript strings are sequences of UTF-16 code units, records are
    objects living in a heap and referred to by reference, the module-level
    [recipes] array is a sequence of such references. *)

From Stdlib Require Import ZArith NArith String Ascii List Lia Bool DecimalPos.
From stdpp Require Import base option list.

Import ListNotations.
Local Open Scope N_scope.

(** ** JavaScript strings *)

Module JS.

(** A string is its sequence of UTF-16 code units. *)
Abbreviation jsstring := (list N).

(** The code units of an ASCII literal. *)
Fixpoint js (s : string) : jsstring :=
  match s with
  | EmptyString => []
  | String c s' => N_of_ascii c :: js s'
  end.
Arguments js s%_string.

(** [WhiteSpace] and [LineTerminator] of ECMAScript, the code units that
    [String.prototype.trim] strips. *)
Definition isWhitespace (c : N) : bool :=
  (c =? 9) || (c =? 10) || (c =? 11) || (c =? 12) || (c =? 13) || (c =? 32)
  || (c =? 160) || (c =? 5760) || ((8192 <=? c) && (c <=? 8202))
  || (c =? 8232) || (c =? 8233) || (c =? 8239) || (c =? 8287)
  || (c =? 12288) || (c =? 65279).

Fixpoint dropWhile {A} (p : A -> bool) (l : list A) : list A :=
  match l with
  | [] => []
  | x :: l' => if p x then dropWhile p l' else l
  end.

Definition trimStart (s : jsstring) : jsstring := dropWhile isWhitespace s.
Definition trimEnd (s : jsstring) : jsstring :=
  reverse (dropWhile isWhitespace (reverse s)).

(** [s.trim()] *)
Definition trim (s : jsstring) : jsstring := trimEnd (trimStart s).

(** [s.split(sep)] for a separator of one code unit: always at least one
    piece, [n + 1] pieces for [n] occurrences of the separator. *)
Fixpoint split (sep : N) (s : jsstring) : list jsstring :=
  match s with
  | [] => [[]]
  | c :: s' =>
      if c =? sep then [] :: split sep s'
      else match split sep s' with
           | [] => [[c]]
           | w :: ws => (c :: w) :: ws
           end
  end.

Fixpoint startsWith (s p : jsstring) : bool :=
  match p, s with
  | [], _ => true
  | _ :: _, [] => false
  | a :: p', b :: s' => (a =? b) && startsWith s' p'
  end.

(** [s.includes(needle)] *)
Fixpoint includes (s needle : jsstring) : bool :=
  startsWith s needle ||
  match s with
  | [] => false
  | _ :: s' => includes s' needle
  end.

Definition streq (a b : jsstring) : bool := bool_decide (a = b).

(** [arr.includes(x)] on an array of strings. *)
Definition arrayIncludes (arr : list jsstring) (x : jsstring) : bool :=
  existsb (streq x) arr.

(** A string is truthy iff it is not empty. *)
Definition truthy (s : jsstring) : bool :=
  match s with [] => false | _ :: _ => true end.

Definition isAscii (c : N) : bool := c <? 128.

Definition asciiLower (c : N) : N :=
  if (65 <=? c) && (c <=? 90) then c + 32 else c.

(** [s.toLowerCase()].  On a string of ASCII code units it maps [A-Z] to
    [a-z]; on any other string it is the lower-casing of the Unicode
    standard, which the development takes as a parameter. *)
Section Lower.
Variable unicodeLower : jsstring -> jsstring.

Definition toLowerCase (s : jsstring) : jsstring :=
  if forallb isAscii s then map asciiLower s else unicodeLower s.
End Lower.

(** [n.toString()] of an integer. *)
Fixpoint decimalOfUint (u : Decimal.uint) : jsstring :=
  match u with
  | Decimal.Nil => []
  | Decimal.D0 u' => 48 :: decimalOfUint u'
  | Decimal.D1 u' => 49 :: decimalOfUint u'
  | Decimal.D2 u' => 50 :: decimalOfUint u'
  | Decimal.D3 u' => 51 :: decimalOfUint u'
  | Decimal.D4 u' => 52 :: decimalOfUint u'
  | Decimal.D5 u' => 53 :: decimalOfUint u'
  | Decimal.D6 u' => 54 :: decimalOfUint u'
  | Decimal.D7 u' => 55 :: decimalOfUint u'
  | Decimal.D8 u' => 56 :: decimalOfUint u'
  | Decimal.D9 u' => 57 :: decimalOfUint u'
  end.

Definition toStringZ (z : Z) : jsstring :=
  match z with
  | Z0 => js "0"
  | Zpos p => decimalOfUint (Pos.to_uint p)
  | Zneg p => js "-" ++ decimalOfUint (Pos.to_uint p)
  end.

End JS.
Import JS.

(** ** Data model ([lib/types.ts]) *)

Inductive Difficulty := Easy | Medium | Hard.

(** ['favorite' | 'to-try' | 'made'] *)
Inductive RecipeStatus := favorite | to_try | made.

Global Instance Difficulty_eq_dec : EqDecision Difficulty.
Proof. solve_decision. Defined.
Global Instance RecipeStatus_eq_dec : EqDecision RecipeStatus.
Proof. solve_decision. Defined.

(** Numbers are integers here: minutes, servings, milliseconds since the
    epoch for a [Date]. *)
Module RecipeMetadata.
Record t := mk {
  cuisineType : jsstring;
  preparationTime : Z;
  servings : Z;
  difficulty : Difficulty;
  tags : list jsstring
}.
End RecipeMetadata.

Module Recipe.
Record t := mk {
  id : jsstring;
  name : jsstring;
  ingredients : list jsstring;
  instructions : list jsstring;
  metadata : RecipeMetadata.t;
  status : RecipeStatus;
  createdAt : Z;
  updatedAt : Z
}.

(** [recipe.status = status] and [recipe.updatedAt = t], field writes. *)
Definition set_status (st : RecipeStatus) (r : t) : t :=
  mk (id r) (name r) (ingredients r) (instructions r) (metadata r) st
     (createdAt r) (updatedAt r).
Definition set_updatedAt (d : Z) (r : t) : t :=
  mk (id r) (name r) (ingredients r) (instructions r) (metadata r) (status r)
     (createdAt r) d.
End Recipe.

Module RecipeFormData.
Record t := mk {
  name : jsstring;
  ingredients : jsstring;
  instructions : jsstring;
  cuisineType : jsstring;
  preparationTime : Z;
  servings : Z;
  difficulty : Difficulty;
  tags : jsstring
}.
End RecipeFormData.

Module SearchFilters.
Record t := mk {
  query : jsstring;
  cuisineType : option jsstring;
  status : option RecipeStatus;
  maxPrepTime : option Z
}.
End SearchFilters.

(** ** The heap and the store monad

    Records are objects: the [recipes] array holds references, and so does
    every array handed out by [getAll] or [search]. *)

Abbreviation addr := nat.

Record World := mkWorld {
  heap : list Recipe.t;
  recipes : list addr
}.

Definition M (A : Type) : Type := World -> A * World.

Global Instance M_ret : MRet M := fun A x w => (x, w).
Global Instance M_bind : MBind M := fun A B f m w =>
  let '(x, w') := m w in f x w'.

Definition getWorld : M World := fun w => (w, w).

(** An object literal: a fresh object. *)
Definition alloc (r : Recipe.t) : M addr := fun w =>
  (length (heap w), mkWorld (heap w ++ [r]) (recipes w)).

(** A field write through a reference. *)
Definition modifyAt (a : addr) (f : Recipe.t -> Recipe.t) : M unit := fun w =>
  (tt, mkWorld (alter f a (heap w)) (recipes w)).

(** [recipes.push(a)], [recipes[index] = a], [recipes.splice(index, 1)] *)
Definition push (a : addr) : M unit := fun w =>
  (tt, mkWorld (heap w) (recipes w ++ [a])).
Definition setAt (index : nat) (a : addr) : M unit := fun w =>
  (tt, mkWorld (heap w) (<[index := a]> (recipes w))).
Definition splice1 (index : nat) : M unit := fun w =>
  (tt, mkWorld (heap w) (delete index (recipes w))).

(** Evaluate a predicate on the object behind a reference. *)
Definition deref (h : list Recipe.t) (p : Recipe.t -> bool) (a : addr) : bool :=
  match h !! a with
  | Some r => p r
  | None => false
  end.

(** [r => r.id === id] *)
Definition hasId (h : list Recipe.t) (i : jsstring) : addr -> bool :=
  deref h (fun r => streq (Recipe.id r) i).

(** [arr.find(p)] and [arr.findIndex(p)]; [None] is [undefined], resp. [-1]. *)
Definition find (p : addr -> bool) (l : list addr) : option addr :=
  snd <$> list_find (fun a => p a) l.
Definition findIndex (p : addr -> bool) (l : list addr) : option nat :=
  fst <$> list_find (fun a => p a) l.

(** What a call reads from its environment: the clock at [new Date()], the
    clock at [Date.now()] and the digits of [Math.random()] used by
    [generateId]. *)
Record Env := mkEnv {
  now : Z;
  idNow : Z;
  random : jsstring
}.

(** ** The store ([lib/data.ts]) *)

Definition seed1 : Recipe.t :=
  Recipe.mk (js "1") (js "Spaghetti Carbonara")
    [js "400g spaghetti"; js "200g pancetta"; js "4 eggs"; js "100g parmesan";
     js "black pepper"]
    [js "Cook spaghetti in salted water until al dente";
     js "Fry pancetta until crispy";
     js "Beat eggs with parmesan and pepper";
     js "Mix hot pasta with egg mixture off heat";
     js "Add pancetta and serve immediately"]
    (RecipeMetadata.mk (js "Italian") 30 4 Medium
       [js "pasta"; js "quick"; js "comfort-food"])
    favorite 1705276800000 1705276800000.

Definition seed2 : Recipe.t :=
  Recipe.mk (js "2") (js "Chicken Teriyaki")
    [js "2 chicken breasts"; js "3 tbsp soy sauce"; js "2 tbsp honey";
     js "1 tbsp rice vinegar"; js "ginger"; js "garlic"]
    [js "Cut chicken into bite-sized pieces";
     js "Make teriyaki sauce with soy sauce, honey, vinegar";
     js "Cook chicken in pan until golden";
     js "Add sauce and simmer until glazed";
     js "Serve with rice and vegetables"]
    (RecipeMetadata.mk (js "Japanese") 25 2 Easy
       [js "chicken"; js "asian"; js "healthy"])
    made 1704844800000 1705708800000.

(** The module-level [recipes] when the module is loaded. *)
Definition initialWorld : World := mkWorld [seed1; seed2] [0%nat; 1%nat].

(** [Date.now().toString() + Math.random().toString(36).substr(2, 9)] *)
Definition generateId (e : Env) : jsstring := toStringZ (idNow e) ++ random e.

(** [s.split(sep).map(i => i.trim()).filter(i => i.length > 0)] *)
Definition splitTrim (sep : N) (s : jsstring) : list jsstring :=
  filter (fun i => truthy i) (map trim (split sep s)).

Definition comma : N := 44.
Definition newline : N := 10.

Definition convertFormDataToRecipe (e : Env) (formData : RecipeFormData.t)
    (id : option jsstring) : M addr :=
  w ← getWorld;
  alloc
    (Recipe.mk
       (match id with
        | Some i => if truthy i then i else generateId e
        | None => generateId e
        end)
       (trim (RecipeFormData.name formData))
       (splitTrim comma (RecipeFormData.ingredients formData))
       (splitTrim newline (RecipeFormData.instructions formData))
       (RecipeMetadata.mk
          (trim (RecipeFormData.cuisineType formData))
          (RecipeFormData.preparationTime formData)
          (RecipeFormData.servings formData)
          (RecipeFormData.difficulty formData)
          (splitTrim comma (RecipeFormData.tags formData)))
       to_try
       (match id with
        | Some i =>
            if truthy i then
              match find (hasId (heap w) i) (recipes w) with
              | Some a =>
                  match heap w !! a with
                  | Some r => Recipe.createdAt r
                  | None => now e
                  end
              | None => now e
              end
            else now e
        | None => now e
        end)
       (now e)).

Module recipeStorage.

Definition getAll : M (list addr) :=
  w ← getWorld; mret (recipes w).

Definition getById (id : jsstring) : M (option addr) :=
  w ← getWorld; mret (find (hasId (heap w) id) (recipes w)).

Definition create (e : Env) (formData : RecipeFormData.t) : M addr :=
  newRecipe ← convertFormDataToRecipe e formData None;
  _ ← push newRecipe;
  mret newRecipe.

Definition update (e : Env) (id : jsstring) (formData : RecipeFormData.t)
    : M (option addr) :=
  w ← getWorld;
  match findIndex (hasId (heap w) id) (recipes w) with
  | None => mret None
  | Some index =>
      updatedRecipe ← convertFormDataToRecipe e formData (Some id);
      _ ← setAt index updatedRecipe;
      mret (Some updatedRecipe)
  end.

Definition delete (id : jsstring) : M bool :=
  w ← getWorld;
  match findIndex (hasId (heap w) id) (recipes w) with
  | None => mret false
  | Some index => _ ← splice1 index; mret true
  end.

Definition updateStatus (e : Env) (id : jsstring) (status : RecipeStatus)
    : M (option addr) :=
  w ← getWorld;
  match find (hasId (heap w) id) (recipes w) with
  | None => mret None
  | Some recipe =>
      _ ← modifyAt recipe (Recipe.set_status status);
      _ ← modifyAt recipe (Recipe.set_updatedAt (now e));
      mret (Some recipe)
  end.

(** [search]: each criterion is applied only when its value is truthy (a
    non-empty string, a status, a non-zero number). *)
Section Search.
Variable unicodeLower : jsstring -> jsstring.
Let lower := toLowerCase unicodeLower.

Definition matchesQuery (query : jsstring) (recipe : Recipe.t) : bool :=
  includes (lower (Recipe.name recipe)) query
  || existsb (fun ingredient => includes (lower ingredient) query)
       (Recipe.ingredients recipe)
  || existsb (fun tag => includes (lower tag) query)
       (RecipeMetadata.tags (Recipe.metadata recipe))
  || includes (lower (RecipeMetadata.cuisineType (Recipe.metadata recipe))) query.

Definition matchesCuisine (cuisineType : jsstring) (recipe : Recipe.t) : bool :=
  streq (lower (RecipeMetadata.cuisineType (Recipe.metadata recipe)))
        (lower cuisineType).

Definition matchesStatus (status : RecipeStatus) (recipe : Recipe.t) : bool :=
  bool_decide (Recipe.status recipe = status).

Definition withinPrepTime (maxPrepTime : Z) (recipe : Recipe.t) : bool :=
  (RecipeMetadata.preparationTime (Recipe.metadata recipe) <=? maxPrepTime)%Z.

Definition byQuery (h : list Recipe.t) (filters : SearchFilters.t)
    (l : list addr) : list addr :=
  if truthy (SearchFilters.query filters) then
    let query := lower (SearchFilters.query filters) in
    filter (fun a => deref h (matchesQuery query) a) l
  else l.

Definition byCuisine (h : list Recipe.t) (filters : SearchFilters.t)
    (l : list addr) : list addr :=
  match SearchFilters.cuisineType filters with
  | Some c =>
      if truthy c then filter (fun a => deref h (matchesCuisine c) a) l else l
  | None => l
  end.

Definition byStatus (h : list Recipe.t) (filters : SearchFilters.t)
    (l : list addr) : list addr :=
  match SearchFilters.status filters with
  | Some st => filter (fun a => deref h (matchesStatus st) a) l
  | None => l
  end.

Definition byMaxPrepTime (h : list Recipe.t) (filters : SearchFilters.t)
    (l : list addr) : list addr :=
  match SearchFilters.maxPrepTime filters with
  | Some m =>
      if (m =? 0)%Z then l
      else filter (fun a => deref h (withinPrepTime m) a) l
  | None => l
  end.

Definition search (filters : SearchFilters.t) : M (list addr) :=
  w ← getWorld;
  let filteredRecipes := recipes w in
  let filteredRecipes := byQuery (heap w) filters filteredRecipes in
  let filteredRecipes := byCuisine (heap w) filters filteredRecipes in
  let filteredRecipes := byStatus (heap w) filters filteredRecipes in
  let filteredRecipes := byMaxPrepTime (heap w) filters filteredRecipes in
  mret filteredRecipes.

(** The test a reference passes to be kept by each stage of [search], and
    by all four. *)
Definition keepQuery (h : list Recipe.t) (filters : SearchFilters.t)
    (a : addr) : bool :=
  if truthy (SearchFilters.query filters)
  then deref h (matchesQuery (lower (SearchFilters.query filters))) a
  else true.

Definition keepCuisine (h : list Recipe.t) (filters : SearchFilters.t)
    (a : addr) : bool :=
  match SearchFilters.cuisineType filters with
  | Some c => if truthy c then deref h (matchesCuisine c) a else true
  | None => true
  end.

Definition keepStatus (h : list Recipe.t) (filters : SearchFilters.t)
    (a : addr) : bool :=
  match SearchFilters.status filters with
  | Some st => deref h (matchesStatus st) a
  | None => true
  end.

Definition keepMaxPrepTime (h : list Recipe.t) (filters : SearchFilters.t)
    (a : addr) : bool :=
  match SearchFilters.maxPrepTime filters with
  | Some m => if (m =? 0)%Z then true else deref h (withinPrepTime m) a
  | None => true
  end.

Definition keeps (h : list Recipe.t) (filters : SearchFilters.t)
    (a : addr) : bool :=
  keepQuery h filters a && keepCuisine h filters a
  && keepStatus h filters a && keepMaxPrepTime h filters a.
End Search.

End recipeStorage.

(** ** The route handlers ([app/api/recipes/route.ts]) *)

Inductive Response (A : Type) : Type :=
| Success (httpStatus : nat) (data : A)
| Failure (httpStatus : nat) (error : jsstring).
Arguments Success {A} httpStatus data.
Arguments Failure {A} httpStatus error.

(** The JSON body of a PUT: a status, when given, and the form fields (a
    missing [name] reads as the empty string, both are falsy). *)
Module PutBody.
Record t := mk {
  status : option RecipeStatus;
  formData : RecipeFormData.t
}.
End PutBody.

Definition POST (e : Env) (formData : RecipeFormData.t) : M (Response addr) :=
  if negb (truthy (trim (RecipeFormData.name formData))) then
    mret (Failure 400 (js "Recipe name is required"))
  else if negb (truthy (trim (RecipeFormData.ingredients formData))) then
    mret (Failure 400 (js "Ingredients are required"))
  else if negb (truthy (trim (RecipeFormData.instructions formData))) then
    mret (Failure 400 (js "Instructions are required"))
  else
    newRecipe ← recipeStorage.create e formData;
    mret (Success 201 newRecipe).

Definition idGiven (recipeId : option jsstring) : option jsstring :=
  match recipeId with
  | Some i => if truthy i then Some i else None
  | None => None
  end.

(** [body.status && !body.name]: the status to set when the request is a
    status-only update. *)
Definition statusOnly (body : PutBody.t) : option RecipeStatus :=
  match PutBody.status body with
  | Some status =>
      if negb (truthy (RecipeFormData.name (PutBody.formData body)))
      then Some status else None
  | None => None
  end.

Definition PUT (e : Env) (recipeId : option jsstring) (body : PutBody.t)
    : M (Response addr) :=
  match idGiven recipeId with
  | None => mret (Failure 400 (js "Recipe ID is required"))
  | Some recipeId =>
      match statusOnly body with
      | Some status =>
          updatedRecipe ← recipeStorage.updateStatus e recipeId status;
          match updatedRecipe with
          | None => mret (Failure 404 (js "Recipe not found"))
          | Some r => mret (Success 200 r)
          end
      | None =>
          let formData := PutBody.formData body in
          if negb (truthy (trim (RecipeFormData.name formData))) then
            mret (Failure 400 (js "Recipe name is required"))
          else
            updatedRecipe ← recipeStorage.update e recipeId formData;
            match updatedRecipe with
            | None => mret (Failure 404 (js "Recipe not found"))
            | Some r => mret (Success 200 r)
            end
      end
  end.

Definition DELETE (recipeId : option jsstring) : M (Response jsstring) :=
  match idGiven recipeId with
  | None => mret (Failure 400 (js "Recipe ID is required"))
  | Some recipeId =>
      success ← recipeStorage.delete recipeId;
      if negb success then mret (Failure 404 (js "Recipe not found"))
      else mret (Success 200 recipeId)
  end.

(** ** The rule-based suggestions ([app/api/ai/recipe-suggestions/route.ts]) *)

Module SuggestedRecipe.
Record t := mk {
  name : jsstring;
  description : jsstring;
  ingredients : list jsstring;
  instructions : list jsstring;
  cuisineType : jsstring;
  preparationTime : Z;
  servings : Z;
  difficulty : Difficulty;
  tags : list jsstring
}.
End SuggestedRecipe.

Definition garlicHerbChickenSkillet : SuggestedRecipe.t :=
  SuggestedRecipe.mk
    (js "Garlic Herb Chicken Skillet")
    (js "A flavorful one-pan chicken dish with herbs and your available vegetables")
    [js "2 chicken breasts, sliced"; js "garlic cloves, minced";
     js "mixed herbs (thyme, rosemary)"; js "vegetables from your list";
     js "olive oil"; js "salt and pepper"; js "lemon juice"]
    [js "Season chicken with salt, pepper, and herbs";
     js "Heat olive oil in a large skillet over medium-high heat";
     js "Cook chicken until golden brown, about 6-7 minutes per side";
     js "Add garlic and cook for 1 minute until fragrant";
     js "Add your vegetables and cook until tender";
     js "Finish with lemon juice and fresh herbs";
     js "Serve hot with rice or potatoes"]
    (js "Mediterranean") 25 4 Easy
    [js "protein-rich"; js "one-pan"; js "healthy"; js "quick"].

Definition freshGardenPasta : SuggestedRecipe.t :=
  SuggestedRecipe.mk
    (js "Fresh Garden Pasta")
    (js "Light and fresh pasta featuring your available ingredients")
    [js "pasta of choice (8 oz)"; js "olive oil"; js "garlic, minced";
     js "fresh vegetables from your list"; js "parmesan cheese, grated";
     js "fresh basil or herbs"; js "salt and pepper"]
    [js "Cook pasta according to package directions until al dente";
     js "Reserve 1 cup pasta water before draining";
     js "Heat olive oil in a large pan over medium heat";
     js "Saut" ++ [233] ++ js " garlic until fragrant, about 1 minute";
     js "Add your vegetables, cooking until just tender";
     js "Toss in cooked pasta with a splash of pasta water";
     js "Add parmesan cheese and fresh herbs";
     js "Season with salt and pepper to taste"]
    (js "Italian") 20 4 Easy
    [js "pasta"; js "vegetarian"; js "fresh"; js "quick"].

Definition savoryRicePilaf : SuggestedRecipe.t :=
  SuggestedRecipe.mk
    (js "Savory Rice Pilaf")
    (js "A hearty rice dish incorporating your available ingredients")
    [js "1 cup long-grain rice"; js "2 cups chicken or vegetable broth";
     js "onion, diced"; js "your protein and vegetables"; js "garlic, minced";
     js "herbs and spices"; js "butter or oil"]
    [js "Heat butter in a large saucepan over medium heat";
     js "Add rice and toast for 2-3 minutes until fragrant";
     js "Add onion and garlic, cook until softened";
     js "Pour in broth and bring to a boil";
     js "Add your protein and harder vegetables";
     js "Reduce heat, cover, and simmer for 18-20 minutes";
     js "Add softer vegetables in the last 5 minutes";
     js "Let stand 5 minutes, then fluff with a fork"]
    (js "Mediterranean") 35 6 Medium
    [js "rice"; js "one-pot"; js "filling"; js "comfort-food"].

Definition mediterraneanVegetableMedley : SuggestedRecipe.t :=
  SuggestedRecipe.mk
    (js "Mediterranean Vegetable Medley")
    (js "A colorful and nutritious vegetable dish bursting with Mediterranean flavors")
    [js "mixed vegetables from your list"; js "olive oil"; js "garlic, minced";
     js "onion, sliced"; js "canned diced tomatoes";
     js "herbs (oregano, basil, thyme)"; js "feta cheese (optional)";
     js "salt and pepper"]
    [js "Heat olive oil in a large skillet or dutch oven";
     js "Saut" ++ [233] ++ js " onion until softened, about 5 minutes";
     js "Add garlic and cook for 1 minute";
     js "Add harder vegetables first, cook for 5-7 minutes";
     js "Add tomatoes and herbs, season with salt and pepper";
     js "Simmer for 15-20 minutes until vegetables are tender";
     js "Add softer vegetables in the last 5 minutes";
     js "Serve hot, optionally topped with feta cheese"]
    (js "Mediterranean") 30 4 Easy
    [js "vegetarian"; js "healthy"; js "mediterranean"; js "colorful"].

Definition rusticVegetableFrittata : SuggestedRecipe.t :=
  SuggestedRecipe.mk
    (js "Rustic Vegetable Frittata")
    (js "A protein-packed frittata featuring your fresh ingredients")
    [js "8 large eggs"; js "vegetables from your list, chopped";
     js "cheese (optional)"; js "olive oil or butter"; js "onion, diced";
     js "herbs (parsley, chives)"; js "salt and pepper"]
    [js "Preheat oven to 375" ++ [176] ++ js "F (190" ++ [176] ++ js "C)";
     js "Heat oil in an oven-safe skillet over medium heat";
     js "Saut" ++ [233] ++ js " onion and harder vegetables until softened";
     js "Beat eggs with salt, pepper, and herbs";
     js "Pour eggs over vegetables in the skillet";
     js "Cook for 3-4 minutes until edges start to set";
     js "Sprinkle with cheese if using";
     js "Transfer to oven and bake for 12-15 minutes until set";
     js "Let cool slightly before slicing and serving"]
    (js "Italian") 25 6 Easy
    [js "eggs"; js "protein-rich"; js "brunch"; js "versatile"].

Section Suggestions.
Variable unicodeLower : jsstring -> jsstring.
Let lower := toLowerCase unicodeLower.

(** [ingredients.toLowerCase().split(',').map(i => i.trim())] *)
Definition ingredientList (ingredients : jsstring) : list jsstring :=
  map trim (split comma (lower ingredients)).

(** One [if (...) suggestions.push(...)] *)
Definition pushIf (trigger : jsstring -> bool) (l : list jsstring)
    (s : SuggestedRecipe.t) : list SuggestedRecipe.t :=
  if existsb trigger l then [s] else [].

Definition vegetables : list jsstring :=
  [js "tomato"; js "onion"; js "carrot"; js "bell pepper"; js "zucchini";
   js "mushroom"].

(** The array [suggestions] once the five templates have been tried. *)
Definition suggestions (ingredients : jsstring) : list SuggestedRecipe.t :=
  let l := ingredientList ingredients in
  pushIf (fun i => includes i (js "chicken")) l garlicHerbChickenSkillet
  ++ pushIf (fun i => includes i (js "pasta") || includes i (js "spaghetti")
                      || includes i (js "noodle")) l freshGardenPasta
  ++ pushIf (fun i => includes i (js "rice")) l savoryRicePilaf
  ++ pushIf (fun i => existsb (fun veg => includes i veg) vegetables) l
       mediterraneanVegetableMedley
  ++ pushIf (fun i => includes i (js "egg")) l rusticVegetableFrittata.

Definition hasMeat (s : SuggestedRecipe.t) : bool :=
  existsb (fun ing => includes (lower ing) (js "chicken")
                      || includes (lower ing) (js "meat")
                      || includes (lower ing) (js "fish"))
    (SuggestedRecipe.ingredients s).

Definition isVegetarian (s : SuggestedRecipe.t) : bool :=
  arrayIncludes (SuggestedRecipe.tags s) (js "vegetarian") || negb (hasMeat s).

Definition isQuick (s : SuggestedRecipe.t) : bool :=
  (SuggestedRecipe.preparationTime s <=? 30)%Z.

Definition isEasy (s : SuggestedRecipe.t) : bool :=
  bool_decide (SuggestedRecipe.difficulty s = Easy).

(** The array [filteredSuggestions] after the three preference filters. *)
Definition filteredSuggestions (ingredients preferences : jsstring)
    : list SuggestedRecipe.t :=
  let prefs := lower preferences in
  let suggestions := suggestions ingredients in
  let filteredSuggestions := suggestions in
  let filteredSuggestions :=
    if includes prefs (js "vegetarian")
    then filter (fun s => isVegetarian s) suggestions
    else filteredSuggestions in
  let filteredSuggestions :=
    if includes prefs (js "quick") || includes prefs (js "30 min")
       || includes prefs (js "fast")
    then filter (fun s => isQuick s) filteredSuggestions
    else filteredSuggestions in
  let filteredSuggestions :=
    if includes prefs (js "easy")
    then filter (fun s => isEasy s) filteredSuggestions
    else filteredSuggestions in
  filteredSuggestions.

(** The five templates, in the order they are tried, and the tokens the
    vegetarian filter looks for. *)
Definition templates : list SuggestedRecipe.t :=
  [garlicHerbChickenSkillet; freshGardenPasta; savoryRicePilaf;
   mediterraneanVegetableMedley; rusticVegetableFrittata].

Definition meatTokens : list jsstring := [js "chicken"; js "meat"; js "fish"].

(** [arr.slice(0, n)] *)
Definition slice0 {A} (n : nat) (l : list A) : list A := take n l.

Definition generateSmartSuggestions (ingredients preferences : jsstring)
    : list SuggestedRecipe.t :=
  let filteredSuggestions := filteredSuggestions ingredients preferences in
  slice0 (Nat.min 4 (Nat.max 2 (length filteredSuggestions))) filteredSuggestions.

End Suggestions.

(** ** Sample inputs *)

(** The form of the end-to-end example: Tacos. *)
Definition tacos : RecipeFormData.t :=
  RecipeFormData.mk (js "Tacos") (js "beef, tortilla, cheese")
    (js "cook beef" ++ [newline] ++ js "assemble") (js "Mexican") 20 2 Easy
    (js "quick").

(** A call made on 2024-01-21, after the newest seed date. *)
Definition sampleEnv : Env :=
  mkEnv 1705800000000 1705800000001 (js "k3j5x0p2q").

(** A stand-in for the Unicode lower-casing where every text is ASCII. *)
Definition asciiOnly : jsstring -> jsstring := fun s => s.

(** Two filter specifications, the second with two more criteria. *)

Definition within30 : SearchFilters.t :=
  SearchFilters.mk [] None None (Some 30%Z).

Definition chickenMadeWithin30 : SearchFilters.t :=
  SearchFilters.mk (js "Chicken") None (Some made) (Some 30%Z).

(** ** The form-input contract, in the words of the specification

    "parses comma-delimited ingredient/tag strings and newline-delimited
    instruction strings into sequences, trimming whitespace and discarding
    empty entries".  The relations below say this without reference to
    [split], [trim] or [filter]. *)

Module Spec.

(** The pieces joined by the delimiter. *)
Fixpoint join (sep : N) (pieces : list jsstring) : jsstring :=
  match pieces with
  | [] => []
  | p :: ps =>
      match ps with
      | [] => p
      | _ :: _ => p ++ sep :: join sep ps
      end
  end.

(** [pieces] are the fields of the delimited text [s]. *)
Definition fieldsOf (sep : N) (s : jsstring) (pieces : list jsstring) : Prop :=
  pieces <> [] /\ join sep pieces = s /\ Forall (fun p => ~ In sep p) pieces.

(** [t] is [w] without its leading and trailing whitespace. *)
Definition trimmedOf (t w : jsstring) : Prop :=
  exists a b,
    w = a ++ t ++ b
    /\ Forall (fun c => isWhitespace c = true) a
    /\ Forall (fun c => isWhitespace c = true) b
    /\ (forall c, head t = Some c -> isWhitespace c = false)
    /\ (forall c, last t = Some c -> isWhitespace c = false).

(** Every field trimmed, the empty results dropped, order kept. *)
Inductive keptEntries : list jsstring -> list jsstring -> Prop :=
| kept_nil : keptEntries [] []
| kept_drop p ps l :
    trimmedOf [] p -> keptEntries ps l -> keptEntries (p :: ps) l
| kept_keep p t ps l :
    trimmedOf t p -> t <> [] -> keptEntries ps l ->
    keptEntries (p :: ps) (t :: l).

Definition delimitedEntries (sep : N) (s : jsstring) (l : list jsstring) : Prop :=
  exists pieces, fieldsOf sep s pieces /\ keptEntries pieces l.

End Spec.

(** ** Reachable stores *)

(** The mutating operations of the store. *)
Inductive Op :=
| OpCreate (formData : RecipeFormData.t)
| OpUpdate (id : jsstring) (formData : RecipeFormData.t)
| OpUpdateStatus (id : jsstring) (status : RecipeStatus)
| OpDelete (id : jsstring).

Definition exec (e : Env) (o : Op) (w : World) : World :=
  match o with
  | OpCreate formData => snd (recipeStorage.create e formData w)
  | OpUpdate id formData => snd (recipeStorage.update e id formData w)
  | OpUpdateStatus id status => snd (recipeStorage.updateStatus e id status w)
  | OpDelete id => snd (recipeStorage.delete id w)
  end.

Definition run (ops : list (Env * Op)) (w : World) : World :=
  fold_left (fun w eo => exec (fst eo) (snd eo) w) ops w.

Definition isUpdateStatus (o : Op) : bool :=
  match o with OpUpdateStatus _ _ => true | _ => false end.

(** What a caller sees through an array of references. *)
Definition observe (w : World) (l : list addr) : list (option Recipe.t) :=
  map (fun a => heap w !! a) l.

(** A record with this id is in the store. *)
Definition present (w : World) (id : jsstring) : Prop :=
  exists a r, a ∈ recipes w /\ heap w !! a = Some r /\ Recipe.id r = id.

(** The slots of [recipes] hold distinct, live objects with a non-empty id
    whose dates are ordered and not after the clock reading [clock]. *)
Record inv (clock : Z) (w : World) : Prop := mkInv {
  inv_nodup : NoDup (recipes w);
  inv_live : forall a, a ∈ recipes w -> exists r, heap w !! a = Some r;
  inv_id : forall a r, a ∈ recipes w -> heap w !! a = Some r ->
           Recipe.id r <> [];
  inv_dates : forall a r, a ∈ recipes w -> heap w !! a = Some r ->
           (Recipe.createdAt r <= Recipe.updatedAt r <= clock)%Z
}.

(** The stores the program can be in: the module as loaded, then any
    operations, the clock never running backwards from the newest seed
    date. *)
Inductive reachable : Z -> World -> Prop :=
| reach_init : reachable 1705708800000 initialWorld
| reach_step clock w e o :
    reachable clock w -> (clock <= now e)%Z ->
    reachable (now e) (exec e o w).

(** Two records that differ at most in [status] and [updatedAt]. *)
Definition sameButStatus (r r' : Recipe.t) : Prop :=
  Recipe.id r' = Recipe.id r
  /\ Recipe.name r' = Recipe.name r
  /\ Recipe.ingredients r' = Recipe.ingredients r
  /\ Recipe.instructions r' = Recipe.instructions r
  /\ Recipe.metadata r' = Recipe.metadata r
  /\ Recipe.createdAt r' = Recipe.createdAt r.

(** A filter specification that keeps every criterion of another. *)
Definition extends (f1 f2 : SearchFilters.t) : Prop :=
  (SearchFilters.query f1 <> [] ->
   SearchFilters.query f2 = SearchFilters.query f1)
  /\ (forall c, SearchFilters.cuisineType f1 = Some c ->
                SearchFilters.cuisineType f2 = Some c)
  /\ (forall st, SearchFilters.status f1 = Some st ->
                 SearchFilters.status f2 = Some st)
  /\ (forall m, SearchFilters.maxPrepTime f1 = Some m ->
                SearchFilters.maxPrepTime f2 = Some m).

(** ** The list route ([app/api/recipes/route.ts], GET) *)

(** The query parameters of a GET: [searchParams.get] gives a string or
    nothing; the status is read at its declared type. *)
Module SearchParams.
Record t := mk {
  query : option jsstring;
  cuisineType : option jsstring;
  status : option RecipeStatus;
  maxPrepTime : option jsstring
}.
End SearchParams.

(** [v || ''] and [v || undefined] on a string that may be missing. *)
Definition orEmpty (v : option jsstring) : jsstring :=
  match v with Some s => s | None => [] end.
Definition orUndefined (v : option jsstring) : option jsstring :=
  match v with
  | Some s => if truthy s then Some s else None
  | None => None
  end.

(** A number is truthy unless it is 0 or NaN ([None]). *)
Definition truthyNumber (n : option Z) : bool :=
  match n with Some z => negb (z =? 0)%Z | None => false end.

Section Get.
Variable unicodeLower : jsstring -> jsstring.
(** [parseInt], [None] for NaN. *)
Variable parseInt : jsstring -> option Z.

(** The four locals the handler reads off the request. *)
Definition filtersOf (params : SearchParams.t) : SearchFilters.t :=
  SearchFilters.mk
    (orEmpty (SearchParams.query params))
    (orUndefined (SearchParams.cuisineType params))
    (SearchParams.status params)
    (match orUndefined (SearchParams.maxPrepTime params) with
     | Some s => parseInt s
     | None => None
     end).

Definition anyParameter (filters : SearchFilters.t) : bool :=
  truthy (SearchFilters.query filters)
  || bool_decide (SearchFilters.cuisineType filters <> None)
  || bool_decide (SearchFilters.status filters <> None)
  || truthyNumber (SearchFilters.maxPrepTime filters).

Definition GET (params : SearchParams.t) : M (Response (list addr)) :=
  let filters := filtersOf params in
  if anyParameter filters then
    filteredRecipes ← recipeStorage.search unicodeLower filters;
    mret (Success 200 filteredRecipes)
  else
    recipes ← recipeStorage.getAll;
    mret (Success 200 recipes).
End Get.

(** ** The self-contained route handlers (the second
    [app/api/recipes/route.ts], with the store inlined) *)

Module InlineRoutes.

Section Handlers.
Variable unicodeLower : jsstring -> jsstring.
Variable parseInt : jsstring -> option Z.

Definition GET (params : SearchParams.t) : M (Response (list addr)) :=
  let filters := filtersOf parseInt params in
  w ← getWorld;
  if anyParameter filters then
    let filteredRecipes := recipes w in
    let filteredRecipes :=
      recipeStorage.byQuery unicodeLower (heap w) filters filteredRecipes in
    let filteredRecipes :=
      recipeStorage.byCuisine unicodeLower (heap w) filters filteredRecipes in
    let filteredRecipes :=
      recipeStorage.byStatus (heap w) filters filteredRecipes in
    let filteredRecipes :=
      recipeStorage.byMaxPrepTime (heap w) filters filteredRecipes in
    mret (Success 200 filteredRecipes)
  else mret (Success 200 (recipes w)).
End Handlers.

Definition POST (e : Env) (formData : RecipeFormData.t) : M (Response addr) :=
  if negb (truthy (trim (RecipeFormData.name formData))) then
    mret (Failure 400 (js "Recipe name is required"))
  else if negb (truthy (trim (RecipeFormData.ingredients formData))) then
    mret (Failure 400 (js "Ingredients are required"))
  else if negb (truthy (trim (RecipeFormData.instructions formData))) then
    mret (Failure 400 (js "Instructions are required"))
  else
    newRecipe ← convertFormDataToRecipe e formData None;
    _ ← push newRecipe;
    mret (Success 201 newRecipe).

Definition PUT (e : Env) (recipeId : option jsstring) (body : PutBody.t)
    : M (Response addr) :=
  match orUndefined recipeId with
  | None => mret (Failure 400 (js "Recipe ID is required"))
  | Some recipeId =>
      match statusOnly body with
      | Some status =>
          w ← getWorld;
          match find (hasId (heap w) recipeId) (recipes w) with
          | None => mret (Failure 404 (js "Recipe not found"))
          | Some recipe =>
              _ ← modifyAt recipe (Recipe.set_status status);
              _ ← modifyAt recipe (Recipe.set_updatedAt (now e));
              mret (Success 200 recipe)
          end
      | None =>
          let formData := PutBody.formData body in
          if negb (truthy (trim (RecipeFormData.name formData))) then
            mret (Failure 400 (js "Recipe name is required"))
          else
            w ← getWorld;
            match findIndex (hasId (heap w) recipeId) (recipes w) with
            | None => mret (Failure 404 (js "Recipe not found"))
            | Some index =>
                updatedRecipe ← convertFormDataToRecipe e formData (Some recipeId);
                _ ← setAt index updatedRecipe;
                mret (Success 200 updatedRecipe)
            end
      end
  end.

Definition DELETE (recipeId : option jsstring) : M (Response jsstring) :=
  match orUndefined recipeId with
  | None => mret (Failure 400 (js "Recipe ID is required"))
  | Some recipeId =>
      w ← getWorld;
      match findIndex (hasId (heap w) recipeId) (recipes w) with
      | None => mret (Failure 404 (js "Recipe not found"))
      | Some index => _ ← splice1 index; mret (Success 200 recipeId)
      end
  end.

End InlineRoutes.

(** ** The form and the suggestion panel ([components/RecipeForm.tsx],
    [components/RecipeSuggestions.tsx]) and the page ([app/page.tsx]) *)

(** [arr.join(sep)] on an array of strings. *)
Fixpoint joinWith (sep : jsstring) (l : list jsstring) : jsstring :=
  match l with
  | [] => []
  | x :: l' =>
      match l' with
      | [] => x
      | _ :: _ => x ++ sep ++ joinWith sep l'
      end
  end.

Module RecipeForm.

(** The form in add mode. *)
Definition emptyForm : RecipeFormData.t :=
  RecipeFormData.mk [] [] [] [] 30 4 Easy [].

(** Edit mode: "Convert recipe back to form format". *)
Definition formOfRecipe (recipe : Recipe.t) : RecipeFormData.t :=
  RecipeFormData.mk
    (Recipe.name recipe)
    (joinWith (js ", ") (Recipe.ingredients recipe))
    (joinWith [newline] (Recipe.instructions recipe))
    (RecipeMetadata.cuisineType (Recipe.metadata recipe))
    (RecipeMetadata.preparationTime (Recipe.metadata recipe))
    (RecipeMetadata.servings (Recipe.metadata recipe))
    (RecipeMetadata.difficulty (Recipe.metadata recipe))
    (joinWith (js ", ") (RecipeMetadata.tags (Recipe.metadata recipe))).

(** The effect that fills the form when it opens. *)
Definition initialForm (recipe : option Recipe.t)
    (suggestedData : option RecipeFormData.t) : RecipeFormData.t :=
  match recipe with
  | Some recipe => formOfRecipe recipe
  | None =>
      match suggestedData with
      | Some suggestedData => suggestedData
      | None => emptyForm
      end
  end.

(** [newErrors], one entry per failed check, in the order of the checks. *)
Definition newErrors (formData : RecipeFormData.t)
    : list (jsstring * jsstring) :=
  (if negb (truthy (trim (RecipeFormData.name formData)))
   then [(js "name", js "Recipe name is required")] else [])
  ++ (if negb (truthy (trim (RecipeFormData.ingredients formData)))
      then [(js "ingredients", js "Ingredients are required")] else [])
  ++ (if negb (truthy (trim (RecipeFormData.instructions formData)))
      then [(js "instructions", js "Instructions are required")] else [])
  ++ (if negb (truthy (trim (RecipeFormData.cuisineType formData)))
      then [(js "cuisineType", js "Cuisine type is required")] else [])
  ++ (if (RecipeFormData.preparationTime formData <? 1)%Z
         || (500 <? RecipeFormData.preparationTime formData)%Z
      then [(js "preparationTime",
             js "Preparation time must be between 1 and 500 minutes")]
      else [])
  ++ (if (RecipeFormData.servings formData <? 1)%Z
         || (20 <? RecipeFormData.servings formData)%Z
      then [(js "servings", js "Servings must be between 1 and 20")]
      else []).

(** [Object.keys(newErrors).length === 0] *)
Definition validateForm (formData : RecipeFormData.t) : bool :=
  Nat.eqb (length (newErrors formData)) 0.

End RecipeForm.

Module RecipeSuggestions.

Definition convertToFormData (suggestion : SuggestedRecipe.t)
    : RecipeFormData.t :=
  RecipeFormData.mk
    (SuggestedRecipe.name suggestion)
    (joinWith (js ", ") (SuggestedRecipe.ingredients suggestion))
    (joinWith [newline] (SuggestedRecipe.instructions suggestion))
    (SuggestedRecipe.cuisineType suggestion)
    (SuggestedRecipe.preparationTime suggestion)
    (SuggestedRecipe.servings suggestion)
    (SuggestedRecipe.difficulty suggestion)
    (joinWith (js ", ") (SuggestedRecipe.tags suggestion)).

End RecipeSuggestions.

Module HomePage.



End HomePage.

(** ** The suggestion route ([app/api/ai/recipe-suggestions/route.ts], POST) *)

(** A JSON value, as [request.json()] and [JSON.parse] give it. *)
#[warnings="-register-all"]
Inductive Json :=
| JNull
| JBool (b : bool)
| JNumber (z : Z)
| JString (s : jsstring)
| JArray (items : list Json)
| JObject (fields : list (jsstring * Json)).

Module SuggestionsRoute.

Definition truthyJson (v : option Json) : bool :=
  match v with
  | None | Some JNull => false
  | Some (JBool b) => b
  | Some (JNumber z) => negb (z =? 0)%Z
  | Some (JString s) => truthy s
  | Some (JArray _) | Some (JObject _) => true
  end.

(** [recipe.key] on a value that is not [null]: the last binding of the key
    in an object, [undefined] on anything else. *)
Definition property (recipe : Json) (key : jsstring) : option Json :=
  match recipe with
  | JObject fields =>
      fold_left (fun found kv => if streq (fst kv) key then Some (snd kv) else found)
        fields None
  | _ => None
  end.

Definition isArray (v : option Json) : bool :=
  match v with Some (JArray _) => true | _ => false end.

Definition isNumber (v : option Json) : bool :=
  match v with Some (JNumber _) => true | _ => false end.

(** The callback of [suggestions.filter]; [None] when it throws, which
    reading a property of [null] does. *)
Definition validRecipe (recipe : Json) : option bool :=
  match recipe with
  | JNull => None
  | _ =>
      Some (truthyJson (property recipe (js "name"))
            && truthyJson (property recipe (js "description"))
            && isArray (property recipe (js "ingredients"))
            && isArray (property recipe (js "instructions"))
            && truthyJson (property recipe (js "cuisineType"))
            && isNumber (property recipe (js "preparationTime"))
            && isNumber (property recipe (js "servings"))
            && truthyJson (property recipe (js "difficulty"))
            && isArray (property recipe (js "tags")))
  end.

(** [suggestions.filter(recipe => ...)]; [None] when the callback throws. *)
Fixpoint filterValid (suggestions : list Json) : option (list Json) :=
  match suggestions with
  | [] => Some []
  | recipe :: rest =>
      match validRecipe recipe with
      | None => None
      | Some keep =>
          match filterValid rest with
          | None => None
          | Some valid => Some (if keep then recipe :: valid else valid)
          end
      end
  end.

(** What the attempt to use the external service comes to. *)
Inductive AiOutcome :=
| AiThrew                      (* the import or the request threw *)
| AiNoContent                  (* [responseContent] is null or empty *)
| AiUnparsable                 (* [JSON.parse] threw *)
| AiParsed (suggestions : Json).

(** The [validSuggestions] the handler returns from inside the inner
    [try], if it gets that far. *)
Definition validSuggestions (ai : AiOutcome) : option (list Json) :=
  match ai with
  | AiParsed (JArray suggestions) =>
      if (0 <? length suggestions)%nat then
        match filterValid suggestions with
        | Some valid => if (0 <? length valid)%nat then Some valid else None
        | None => None
        end
      else None
  | _ => None
  end.

Inductive SuggestionsResponse :=
| FromOpenAI (data : list Json)
| FromRules (data : list SuggestedRecipe.t) (source : jsstring)
| Rejected (httpStatus : nat) (error : jsstring).

Section Post.
Variable unicodeLower : jsstring -> jsstring.

(** [generateSmartSuggestions(ingredients, preferences || '')] and the
    answer built from it; a truthy [preferences] that is not a string has
    no [toLowerCase], the call throws and the outer [catch] answers 500. *)
Definition fallback (hasOpenAI : bool) (ingredients : jsstring)
    (preferences : option Json) : SuggestionsResponse :=
  let source := if hasOpenAI then js "fallback" else js "smart-suggestions" in
  if truthyJson preferences then
    match preferences with
    | Some (JString preferences) =>
        FromRules (generateSmartSuggestions unicodeLower ingredients preferences)
          source
    | _ => Rejected 500 (js "Failed to generate recipe suggestions")
    end
  else FromRules (generateSmartSuggestions unicodeLower ingredients []) source.

Definition POST (hasOpenAI : bool) (ai : AiOutcome)
    (ingredients preferences : option Json) : SuggestionsResponse :=
  match ingredients with
  | Some (JString ingredients) =>
      if negb (truthy ingredients) then
        Rejected 400 (js "Ingredients are required")
      else if (length (trim ingredients) <? 3)%nat then
        Rejected 400 (js "Please provide at least a few ingredients")
      else
        match (if hasOpenAI then validSuggestions ai else None) with
        | Some valid => FromOpenAI valid
        | None => fallback hasOpenAI ingredients preferences
        end
  | _ => Rejected 400 (js "Ingredients are required")
  end.
End Post.

End SuggestionsRoute.

(** A form typed carelessly: blanks around the entries, empty entries. *)
Definition untidyForm : RecipeFormData.t :=
  RecipeFormData.mk (js "  Broth ") (js " water ,, salt , ")
    ([newline] ++ js " boil " ++ [newline; newline] ++ js "season")
    (js " French") 45 0 Hard (js ",soup").

(** A reply of the external service: one usable suggestion, one without
    instructions. *)
Definition sampleReply : Json :=
  JArray
    [JObject [(js "name", JString (js "Rice bowl"));
              (js "description", JString (js "Quick bowl"));
              (js "ingredients", JArray [JString (js "rice")]);
              (js "instructions", JArray [JString (js "Cook the rice")]);
              (js "cuisineType", JString (js "Asian"));
              (js "preparationTime", JNumber 15);
              (js "servings", JNumber 2);
              (js "difficulty", JString (js "Easy"));
              (js "tags", JArray [])];
     JObject [(js "name", JString (js "Mystery"))]].

(** ** Well-formed entries *)

(** An entry as the form parser produces it: not empty, trimmed, free of
    the delimiter. *)
Definition canonicalEntry (sep : N) (x : jsstring) : Prop :=
  x <> [] /\ trim x = x /\ ~ In sep x.

Definition canonicalRecipe (r : Recipe.t) : Prop :=
  trim (Recipe.name r) = Recipe.name r
  /\ trim (RecipeMetadata.cuisineType (Recipe.metadata r))
     = RecipeMetadata.cuisineType (Recipe.metadata r)
  /\ Forall (canonicalEntry comma) (Recipe.ingredients r)
  /\ Forall (canonicalEntry newline) (Recipe.instructions r)
  /\ Forall (canonicalEntry comma) (RecipeMetadata.tags (Recipe.metadata r)).

(** Every object of the heap is well-formed. *)
Definition heapCanonical (w : World) : Prop :=
  forall a r, heap w !! a = Some r -> canonicalRecipe r.

(** No two slots of the store hold records with the same id. *)
Definition uniqueIds (w : World) : Prop :=
  forall i j a b ra rb,
    recipes w !! i = Some a -> recipes w !! j = Some b ->
    heap w !! a = Some ra -> heap w !! b = Some rb ->
    Recipe.id ra = Recipe.id rb -> i = j.

(** * Properties *)

(** ** Strings *)

Lemma dropWhile_decompose {A} (p : A -> bool) (l : list A) :
  exists a, l = a ++ dropWhile p l
            /\ Forall (fun c => p c = true) a
            /\ (forall c, head (dropWhile p l) = Some c -> p c = false).
Proof.
  induction l as [|x l IH]; simpl.
  - exists []. repeat split; [constructor | discriminate].
  - destruct (p x) eqn:Hx.
    + destruct IH as (a & Hl & Ha & Hh).
      exists (x :: a). repeat split; [simpl; congruence | by constructor | done].
    + exists []. repeat split; [constructor |].
      simpl. intros c [= <-]. done.
Qed.

Lemma trim_trimmedOf (w : jsstring) : Spec.trimmedOf (trim w) w.
Proof.
  unfold trim, trimEnd, trimStart.
  destruct (dropWhile_decompose isWhitespace w) as (a & Hw & Ha & Hh).
  set (t1 := dropWhile isWhitespace w) in *.
  destruct (dropWhile_decompose isWhitespace (reverse t1)) as (b & Hr & Hb & Hl).
  set (t2 := dropWhile isWhitespace (reverse t1)) in *.
  assert (Ht1 : t1 = reverse t2 ++ reverse b).
  { rewrite <- reverse_app, <- Hr. by rewrite reverse_involutive. }
  exists a, (reverse b). repeat split.
  - by rewrite <- Ht1.
  - done.
  - by apply Forall_reverse.
  - intros c Hc. apply Hh. rewrite Ht1.
    destruct (reverse t2); [discriminate | done].
  - intros c Hc. apply Hl. by rewrite <- last_reverse.
Qed.

Lemma split_not_nil sep s : split sep s <> [].
Proof.
  destruct s as [|c s]; simpl; [done |].
  destruct (c =? sep); [done |]. by destruct (split sep s).
Qed.

Lemma join_cons sep p ps :
  ps <> [] -> Spec.join sep (p :: ps) = p ++ sep :: Spec.join sep ps.
Proof. destruct ps; [done |]. reflexivity. Qed.

Lemma join_split sep s : Spec.join sep (split sep s) = s.
Proof.
  induction s as [|c s IH]; [done |].
  pose proof (split_not_nil sep s) as Hnn.
  cbn [split]. destruct (N.eqb_spec c sep) as [-> | Hne].
  - rewrite join_cons by done. by rewrite IH.
  - destruct (split sep s) as [|w ws] eqn:Hs; [done |].
    destruct ws as [|w' ws].
    + simpl in *. by rewrite IH.
    + rewrite join_cons by done. rewrite join_cons in IH by done.
      change ((c :: w) ++ sep :: Spec.join sep (w' :: ws))
        with (c :: (w ++ sep :: Spec.join sep (w' :: ws))).
      by rewrite IH.
Qed.

Lemma split_no_sep sep s : Forall (fun p => ~ In sep p) (split sep s).
Proof.
  induction s as [|c s IH]; simpl.
  - constructor; [intros [] | constructor].
  - destruct (N.eqb_spec c sep) as [-> | Hne].
    + constructor; [intros [] | done].
    + destruct (split sep s) as [|w ws]; [repeat constructor; intros [?|[]]; done |].
      inversion IH; subst. constructor; [|done].
      intros [?|?]; [congruence | done].
Qed.

Lemma split_fieldsOf sep s : Spec.fieldsOf sep s (split sep s).
Proof.
  split; [apply split_not_nil | split; [apply join_split | apply split_no_sep]].
Qed.

Lemma keptEntries_trim (pieces : list jsstring) :
  Spec.keptEntries pieces (filter (fun i => truthy i) (map trim pieces)).
Proof.
  induction pieces as [|p ps IH]; simpl; [constructor |].
  rewrite filter_cons. destruct (trim p) as [|c t] eqn:Ht; simpl.
  - apply Spec.kept_drop; [|done]. rewrite <- Ht. apply trim_trimmedOf.
  - apply Spec.kept_keep; [|done|done]. rewrite <- Ht. apply trim_trimmedOf.
Qed.

Lemma splitTrim_delimitedEntries sep s :
  Spec.delimitedEntries sep s (splitTrim sep s).
Proof.
  exists (split sep s). split; [apply split_fieldsOf | apply keptEntries_trim].
Qed.

(** The relations of the specification determine their result. *)

Lemma dropWhile_all {A} (p : A -> bool) (a l : list A) :
  Forall (fun c => p c = true) a -> dropWhile p (a ++ l) = dropWhile p l.
Proof.
  induction 1 as [|x a Hx _ IH]; simpl; [done |]. by rewrite Hx.
Qed.

Lemma dropWhile_stop {A} (p : A -> bool) (l : list A) :
  (forall c, head l = Some c -> p c = false) -> dropWhile p l = l.
Proof.
  destruct l as [|x l]; simpl; [done |]. intros H. by rewrite (H x).
Qed.

Lemma trimmedOf_trim (t w : jsstring) : Spec.trimmedOf t w -> t = trim w.
Proof.
  intros (a & b & -> & Ha & Hb & Hh & Hl).
  unfold trim, trimEnd, trimStart. rewrite dropWhile_all by done.
  destruct t as [|c t].
  - simpl. rewrite <- (app_nil_r b) at 1. rewrite dropWhile_all by done.
    reflexivity.
  - rewrite (dropWhile_stop _ ((c :: t) ++ b)) by (intros c'; apply Hh).
    rewrite reverse_app, dropWhile_all by (by apply Forall_reverse).
    rewrite dropWhile_stop; [by rewrite reverse_involutive |].
    intros c'. rewrite head_reverse. apply Hl.
Qed.

Lemma keptEntries_unique (pieces l : list jsstring) :
  Spec.keptEntries pieces l ->
  l = filter (fun i => truthy i) (map trim pieces).
Proof.
  induction 1 as [|p ps l Hp _ IH|p t ps l Hp Hne _ IH]; [done | |].
  - cbn [map]. rewrite filter_cons, <- (trimmedOf_trim _ _ Hp). done.
  - cbn [map]. rewrite filter_cons, <- (trimmedOf_trim _ _ Hp).
    destruct t; [done |]. simpl. by rewrite IH.
Qed.

Lemma split_app_sep sep p rest :
  ~ In sep p ->
  split sep (p ++ sep :: rest) = p :: split sep rest.
Proof.
  induction p as [|c p IH]; intros Hp; simpl.
  - by rewrite N.eqb_refl.
  - destruct (N.eqb_spec c sep) as [-> | Hne]; [destruct Hp; by left |].
    rewrite IH; [done |]. intros ?. apply Hp. by right.
Qed.

Lemma split_no_occurrence sep p : ~ In sep p -> split sep p = [p].
Proof.
  induction p as [|c p IH]; intros Hp; simpl; [done |].
  destruct (N.eqb_spec c sep) as [-> | Hne]; [destruct Hp; by left |].
  rewrite IH; [done |]. intros ?. apply Hp. by right.
Qed.

Lemma fieldsOf_unique sep s pieces :
  Spec.fieldsOf sep s pieces -> pieces = split sep s.
Proof.
  intros (Hne & <- & Hall).
  induction pieces as [|p ps IH]; [done |].
  inversion Hall as [|? ? Hp Hps]; subst.
  destruct ps as [|q ps].
  - simpl. by rewrite split_no_occurrence.
  - rewrite join_cons by done. rewrite split_app_sep by done.
    f_equal. by apply IH.
Qed.

Lemma delimitedEntries_unique sep s l :
  Spec.delimitedEntries sep s l <-> l = splitTrim sep s.
Proof.
  split.
  - intros (pieces & Hf & Hk). apply fieldsOf_unique in Hf as ->.
    by apply keptEntries_unique.
  - intros ->. apply splitTrim_delimitedEntries.
Qed.

(** ** The store *)

Ltac run_m :=
  unfold recipeStorage.create, recipeStorage.update, recipeStorage.delete,
    recipeStorage.updateStatus, recipeStorage.getAll, recipeStorage.getById,
    convertFormDataToRecipe, mbind, mret, M_bind, M_ret, getWorld,
    alloc, modifyAt, push, setAt, splice1 in *;
  cbn [fst snd heap recipes] in *.

Lemma findIndex_Some p l i :
  findIndex p l = Some i ->
  exists a, l !! i = Some a /\ p a = true /\ find p l = Some a
            /\ (forall j b, l !! j = Some b -> (j < i)%nat -> p b = false).
Proof.
  unfold find, findIndex.
  destruct (list_find _ l) as [[i' a]|] eqn:H; simpl; [|done].
  intros [= ->]. apply list_find_Some in H as (Hl & Hp & Hlt).
  exists a. repeat split; [done | by apply Is_true_eq_true | ].
  intros j b Hb Hj. specialize (Hlt j b Hb Hj).
  by destruct (p b); [destruct Hlt|].
Qed.

Lemma findIndex_None p l :
  findIndex p l = None <-> (forall a, a ∈ l -> p a = false).
Proof.
  unfold findIndex. split.
  - destruct (list_find _ l) as [[i' a]|] eqn:H; simpl; [done |].
    intros _ a Ha. rewrite list_find_None in H.
    rewrite Forall_forall in H. specialize (H a Ha).
    by destruct (p a); [destruct H|].
  - intros H. destruct (list_find _ l) as [[i' a]|] eqn:Hf; simpl; [|done].
    apply list_find_Some in Hf as (Hl & Hp & _).
    apply list_elem_of_lookup_2 in Hl.
    rewrite (H a Hl) in Hp. destruct Hp.
Qed.

Lemma find_None p l : find p l = None <-> findIndex p l = None.
Proof. unfold find, findIndex. by destruct (list_find _ l). Qed.

Lemma hasId_true h i a :
  hasId h i a = true <-> exists r, h !! a = Some r /\ Recipe.id r = i.
Proof.
  unfold hasId, deref, streq. destruct (h !! a) as [r|]; split.
  - intros H. exists r. split; [done |]. by apply bool_decide_eq_true in H.
  - intros (r' & [= <-] & H). by apply bool_decide_eq_true.
  - done.
  - by intros (r' & [=] & _).
Qed.

Lemma present_findIndex w id :
  present w id <-> exists index, findIndex (hasId (heap w) id) (recipes w) = Some index.
Proof.
  split.
  - intros (a & r & Ha & Hr & Hid).
    destruct (findIndex _ _) as [i|] eqn:H; [by exists i |].
    rewrite findIndex_None in H. specialize (H a Ha).
    assert (hasId (heap w) id a = true) by (apply hasId_true; eauto).
    congruence.
  - intros (i & H). apply findIndex_Some in H as (a & Hl & Hp & _).
    apply hasId_true in Hp as (r & Hr & Hid). exists a, r.
    split; [|done]. by eapply list_elem_of_lookup_2.
Qed.

Lemma absent_findIndex w id :
  ~ present w id <-> findIndex (hasId (heap w) id) (recipes w) = None.
Proof.
  rewrite present_findIndex. destruct (findIndex _ _) as [i|]; split; try done.
  - intros H. destruct H. by exists i.
  - by intros _ (i & ?).
Qed.

Lemma truthy_nonempty (s : jsstring) : s <> [] -> truthy s = true.
Proof. by destruct s. Qed.

(** C1: for a form input whose name, ingredients and instructions are not
    empty once trimmed, the POST handler answers 201 with the record [R] that
    [create] returns: a fresh object, appended to the store, with status
    to-try, [createdAt] equal to [updatedAt], and with ingredients, tags
    (comma) and instructions (newline) the delimited entries of the input
    strings, trimmed, the empty ones dropped. *)
Theorem create_returns_parsed_record
    (e : Env) (formData : RecipeFormData.t) (w : World) :
  trim (RecipeFormData.name formData) <> [] ->
  trim (RecipeFormData.ingredients formData) <> [] ->
  trim (RecipeFormData.instructions formData) <> [] ->
  exists R,
    let newRecipe := length (heap w) in
    let w' := mkWorld (heap w ++ [R]) (recipes w ++ [newRecipe]) in
    recipeStorage.create e formData w = (newRecipe, w')
    /\ POST e formData w = (Success 201 newRecipe, w')
    /\ heap w' !! newRecipe = Some R
    /\ Recipe.status R = to_try
    /\ Recipe.createdAt R = Recipe.updatedAt R
    /\ Spec.delimitedEntries comma (RecipeFormData.ingredients formData)
         (Recipe.ingredients R)
    /\ Spec.delimitedEntries comma (RecipeFormData.tags formData)
         (RecipeMetadata.tags (Recipe.metadata R))
    /\ Spec.delimitedEntries newline (RecipeFormData.instructions formData)
         (Recipe.instructions R).
Proof.
  intros Hname Hing Hins.
  eexists. cbv zeta. split; [|split; [|split]].
  - run_m. reflexivity.
  - unfold POST.
    rewrite !truthy_nonempty by done. cbn [negb].
    run_m. reflexivity.
  - cbn [heap]. rewrite lookup_app_r by done.
    by rewrite Nat.sub_diag.
  - cbn [Recipe.status Recipe.createdAt Recipe.updatedAt Recipe.ingredients
         Recipe.instructions Recipe.metadata RecipeMetadata.tags].
    repeat split; apply splitTrim_delimitedEntries.
Qed.

(** *** What each operation does to the heap and to [recipes] *)

Lemma decimalOfUint_nonempty u : u <> Decimal.Nil -> decimalOfUint u <> [].
Proof. by destruct u. Qed.

Lemma toStringZ_nonempty z : toStringZ z <> [].
Proof.
  destruct z as [|p|p]; simpl; [done | | done].
  apply decimalOfUint_nonempty, Unsigned.to_uint_nonnil.
Qed.

Lemma generateId_nonempty e : generateId e <> [].
Proof.
  unfold generateId. pose proof (toStringZ_nonempty (idNow e)).
  by destruct (toStringZ (idNow e)).
Qed.

Lemma convert_new e formData w :
  exists R,
    convertFormDataToRecipe e formData None w
      = (length (heap w), mkWorld (heap w ++ [R]) (recipes w))
    /\ Recipe.id R = generateId e
    /\ Recipe.status R = to_try
    /\ Recipe.createdAt R = now e
    /\ Recipe.updatedAt R = now e.
Proof. eexists. split; [run_m; reflexivity | done]. Qed.

Lemma convert_existing e formData (id : jsstring) w a r :
  id <> [] ->
  find (hasId (heap w) id) (recipes w) = Some a ->
  heap w !! a = Some r ->
  exists R,
    convertFormDataToRecipe e formData (Some id) w
      = (length (heap w), mkWorld (heap w ++ [R]) (recipes w))
    /\ Recipe.id R = id
    /\ Recipe.status R = to_try
    /\ Recipe.createdAt R = Recipe.createdAt r
    /\ Recipe.updatedAt R = now e.
Proof.
  intros Hid Hfind Hr. eexists. split; [run_m; reflexivity |].
  cbn [Recipe.id Recipe.status Recipe.createdAt Recipe.updatedAt].
  rewrite (truthy_nonempty id Hid), Hfind, Hr. done.
Qed.

Lemma lookup_heap_snoc (h : list Recipe.t) R a r :
  h !! a = Some r -> (h ++ [R]) !! a = Some r.
Proof. intros H. by apply lookup_app_l_Some. Qed.

Lemma lookup_heap_new (h : list Recipe.t) R : (h ++ [R]) !! length h = Some R.
Proof. rewrite lookup_app_r by done. by rewrite Nat.sub_diag. Qed.

Lemma elem_of_insert_inv (l : list addr) i x y :
  y ∈ <[i:=x]> l -> y = x \/ y ∈ l.
Proof.
  revert i. induction l as [|z l IH]; intros [|i]; simpl; try by right.
  - rewrite !elem_of_cons. tauto.
  - rewrite !elem_of_cons. intros [->|H]; [tauto |].
    destruct (IH _ H); tauto.
Qed.

Lemma NoDup_insert_fresh (l : list addr) i x :
  NoDup l -> x ∉ l -> NoDup (<[i:=x]> l).
Proof.
  revert i. induction l as [|z l IH]; intros [|i]; simpl; try done.
  - rewrite !NoDup_cons, not_elem_of_cons. tauto.
  - rewrite !NoDup_cons, not_elem_of_cons. intros [Hz Hl] [Hne Hx].
    split; [|by apply IH].
    intros Hin. apply elem_of_insert_inv in Hin as [->|]; done.
Qed.

Lemma fresh_not_in_store clock w :
  inv clock w -> length (heap w) ∉ recipes w.
Proof.
  intros Hinv Hin. destruct (inv_live _ _ Hinv _ Hin) as (r & Hr).
  apply lookup_lt_Some in Hr. lia.
Qed.

Lemma create_result e formData w :
  exists R,
    recipeStorage.create e formData w
      = (length (heap w),
         mkWorld (heap w ++ [R]) (recipes w ++ [length (heap w)]))
    /\ Recipe.id R = generateId e
    /\ Recipe.status R = to_try
    /\ Recipe.createdAt R = now e
    /\ Recipe.updatedAt R = now e.
Proof.
  destruct (convert_new e formData w) as (R & Hc & HR).
  exists R. split; [|done].
  unfold recipeStorage.create, mbind, M_bind. rewrite Hc. reflexivity.
Qed.

Lemma update_found e (id : jsstring) formData w index :
  id <> [] ->
  findIndex (hasId (heap w) id) (recipes w) = Some index ->
  exists a r R,
    recipes w !! index = Some a
    /\ find (hasId (heap w) id) (recipes w) = Some a
    /\ heap w !! a = Some r
    /\ Recipe.id r = id
    /\ recipeStorage.update e id formData w
       = (Some (length (heap w)),
          mkWorld (heap w ++ [R]) (<[index := length (heap w)]> (recipes w)))
    /\ Recipe.id R = id
    /\ Recipe.status R = to_try
    /\ Recipe.createdAt R = Recipe.createdAt r
    /\ Recipe.updatedAt R = now e.
Proof.
  intros Hid Hidx.
  destruct (findIndex_Some _ _ _ Hidx) as (a & Hl & Hp & Hfind & _).
  apply hasId_true in Hp as (r & Hr & Hrid).
  destruct (convert_existing e formData id w a r Hid Hfind Hr) as (R & Hc & HR).
  exists a, r, R. repeat split; try done; try apply HR.
  unfold recipeStorage.update, mbind, M_bind, getWorld. cbv beta iota.
  rewrite Hidx. cbv beta iota. rewrite Hc. reflexivity.
Qed.

Lemma update_absent e id formData w :
  findIndex (hasId (heap w) id) (recipes w) = None ->
  recipeStorage.update e id formData w = (None, w).
Proof.
  intros H. unfold recipeStorage.update, mbind, M_bind, getWorld.
  by rewrite H.
Qed.

Lemma delete_found id w index :
  findIndex (hasId (heap w) id) (recipes w) = Some index ->
  recipeStorage.delete id w
    = (true, mkWorld (heap w) (delete index (recipes w))).
Proof.
  intros H. unfold recipeStorage.delete, mbind, M_bind, getWorld.
  by rewrite H.
Qed.

Lemma delete_absent id w :
  findIndex (hasId (heap w) id) (recipes w) = None ->
  recipeStorage.delete id w = (false, w).
Proof.
  intros H. unfold recipeStorage.delete, mbind, M_bind, getWorld.
  by rewrite H.
Qed.

Lemma updateStatus_found e id status w a :
  find (hasId (heap w) id) (recipes w) = Some a ->
  recipeStorage.updateStatus e id status w
    = (Some a,
       mkWorld (alter (Recipe.set_updatedAt (now e)) a
                  (alter (Recipe.set_status status) a (heap w)))
               (recipes w)).
Proof.
  intros H. unfold recipeStorage.updateStatus, mbind, M_bind, getWorld.
  by rewrite H.
Qed.

Lemma updateStatus_absent e id status w :
  find (hasId (heap w) id) (recipes w) = None ->
  recipeStorage.updateStatus e id status w = (None, w).
Proof.
  intros H. unfold recipeStorage.updateStatus, mbind, M_bind, getWorld.
  by rewrite H.
Qed.

Lemma lookup_status_write (h : list Recipe.t) d st a b :
  alter (Recipe.set_updatedAt d) a (alter (Recipe.set_status st) a h) !! b
  = if decide (a = b)
    then (fun r => Recipe.set_updatedAt d (Recipe.set_status st r)) <$> h !! b
    else h !! b.
Proof.
  destruct (decide (a = b)) as [->|Hne].
  - rewrite !list_lookup_alter_eq. by destruct (h !! b).
  - by rewrite !list_lookup_alter_ne.
Qed.

(** *** The invariant *)

Lemma inv_weaken clock clock' w :
  (clock <= clock')%Z -> inv clock w -> inv clock' w.
Proof.
  intros Hle [H1 H2 H3 H4]. split; try done.
  intros a r Ha Hr. specialize (H4 a r Ha Hr). lia.
Qed.

Lemma inv_initial : inv 1705708800000 initialWorld.
Proof.
  split; simpl.
  - apply (bool_decide_unpack (NoDup [0%nat; 1%nat])). reflexivity.
  - intros a Ha. repeat (apply elem_of_cons in Ha as [->|Ha]; [eauto |]).
    by apply elem_of_nil in Ha.
  - intros a r Ha.
    repeat (apply elem_of_cons in Ha as [->|Ha]; [by intros [= <-] |]).
    by apply elem_of_nil in Ha.
  - intros a r Ha.
    repeat (apply elem_of_cons in Ha as [->|Ha];
            [intros [= <-]; simpl; lia |]).
    by apply elem_of_nil in Ha.
Qed.

Lemma inv_exec clock w e o :
  inv clock w -> (clock <= now e)%Z -> inv (now e) (exec e o w).
Proof.
  intros Hinv Hle. pose proof (fresh_not_in_store _ _ Hinv) as Hfresh.
  destruct o as [formData | id formData | id status | id]; cbn [exec].
  - (* create *)
    destruct (create_result e formData w) as (R & -> & Hid & _ & Hc & Hu).
    cbn [snd]. split; cbn [heap recipes].
    + apply NoDup_app. split; [apply Hinv | split; [|apply NoDup_singleton]].
      intros a Ha Hin. apply list_elem_of_singleton in Hin as ->. done.
    + intros a [Ha | ->%list_elem_of_singleton]%elem_of_app.
      * destruct (inv_live _ _ Hinv a Ha) as (r & Hr).
        exists r. by apply lookup_heap_snoc.
      * eexists. apply lookup_heap_new.
    + intros a r [Ha | ->%list_elem_of_singleton]%elem_of_app.
      * destruct (inv_live _ _ Hinv a Ha) as (r0 & Hr0).
        rewrite (lookup_heap_snoc _ R _ _ Hr0). intros [= <-].
        by eapply inv_id.
      * rewrite lookup_heap_new. intros [= <-]. rewrite Hid.
        apply generateId_nonempty.
    + intros a r [Ha | ->%list_elem_of_singleton]%elem_of_app.
      * destruct (inv_live _ _ Hinv a Ha) as (r0 & Hr0).
        rewrite (lookup_heap_snoc _ R _ _ Hr0). intros [= <-].
        pose proof (inv_dates _ _ Hinv a r0 Ha Hr0). lia.
      * rewrite lookup_heap_new. intros [= <-]. lia.
  - (* update *)
    destruct (findIndex (hasId (heap w) id) (recipes w)) as [index|] eqn:Hidx.
    2:{ rewrite update_absent by done. by apply (inv_weaken clock). }
    assert (Hne : id <> []).
    { destruct (findIndex_Some _ _ _ Hidx) as (a & Hl & Hp & _).
      apply hasId_true in Hp as (r & Hr & <-).
      eapply inv_id; [done | by eapply list_elem_of_lookup_2 | done]. }
    destruct (update_found e id formData w index Hne Hidx)
      as (a & r & R & Hl & _ & Hr & Hrid & -> & Hid & _ & Hc & Hu).
    assert (Ha : a ∈ recipes w) by (by eapply list_elem_of_lookup_2).
    cbn [snd]. split; cbn [heap recipes].
    + by apply NoDup_insert_fresh; [apply Hinv |].
    + intros b [-> | Hb]%elem_of_insert_inv.
      * eexists. apply lookup_heap_new.
      * destruct (inv_live _ _ Hinv b Hb) as (r0 & Hr0).
        exists r0. by apply lookup_heap_snoc.
    + intros b r1 [-> | Hb]%elem_of_insert_inv.
      * rewrite lookup_heap_new. intros [= <-]. by rewrite Hid.
      * destruct (inv_live _ _ Hinv b Hb) as (r0 & Hr0).
        rewrite (lookup_heap_snoc _ R _ _ Hr0). intros [= <-].
        by eapply inv_id.
    + intros b r1 [-> | Hb]%elem_of_insert_inv.
      * rewrite lookup_heap_new. intros [= <-].
        pose proof (inv_dates _ _ Hinv a r Ha Hr). lia.
      * destruct (inv_live _ _ Hinv b Hb) as (r0 & Hr0).
        rewrite (lookup_heap_snoc _ R _ _ Hr0). intros [= <-].
        pose proof (inv_dates _ _ Hinv b r0 Hb Hr0). lia.
  - (* updateStatus *)
    destruct (find (hasId (heap w) id) (recipes w)) as [a|] eqn:Hfind.
    2:{ rewrite updateStatus_absent by done. by apply (inv_weaken clock). }
    rewrite (updateStatus_found _ _ _ _ _ Hfind). cbn [snd].
    split; cbn [heap recipes].
    + apply Hinv.
    + intros b Hb. destruct (inv_live _ _ Hinv b Hb) as (r0 & Hr0).
      rewrite lookup_status_write, Hr0. destruct (decide (a = b)); eauto.
    + intros b r1 Hb. destruct (inv_live _ _ Hinv b Hb) as (r0 & Hr0).
      rewrite lookup_status_write, Hr0.
      destruct (decide (a = b)); simpl; intros [= <-];
        apply (inv_id _ _ Hinv b r0 Hb Hr0).
    + intros b r1 Hb. destruct (inv_live _ _ Hinv b Hb) as (r0 & Hr0).
      rewrite lookup_status_write, Hr0.
      pose proof (inv_dates _ _ Hinv b r0 Hb Hr0).
      destruct (decide (a = b)); simpl; intros [= <-]; simpl; lia.
  - (* delete *)
    destruct (findIndex (hasId (heap w) id) (recipes w)) as [index|] eqn:Hidx.
    2:{ rewrite delete_absent by done. by apply (inv_weaken clock). }
    rewrite (delete_found _ _ _ Hidx). cbn [snd].
    pose proof (sublist_delete (recipes w) index) as Hsub.
    pose proof (sublist_subseteq _ _ Hsub) as Hin.
    split; cbn [heap recipes].
    + eapply sublist_NoDup; [apply Hinv | done].
    + intros b Hb. apply (inv_live _ _ Hinv b (Hin _ Hb)).
    + intros b r Hb Hr. apply (inv_id _ _ Hinv b r (Hin _ Hb) Hr).
    + intros b r Hb Hr.
      pose proof (inv_dates _ _ Hinv b r (Hin _ Hb) Hr). lia.
Qed.

Lemma reachable_inv clock w : reachable clock w -> inv clock w.
Proof.
  induction 1 as [|clock w e o _ IH Hle]; [apply inv_initial |].
  by apply inv_exec with clock.
Qed.

(** *** Objects once allocated: only [updateStatus] writes to them *)

Lemma sameButStatus_refl r : sameButStatus r r.
Proof. by repeat split. Qed.

Lemma sameButStatus_trans r1 r2 r3 :
  sameButStatus r1 r2 -> sameButStatus r2 r3 -> sameButStatus r1 r3.
Proof.
  unfold sameButStatus. intros (?&?&?&?&?&?) (?&?&?&?&?&?).
  repeat split; congruence.
Qed.

Lemma sameButStatus_write d st r :
  sameButStatus r (Recipe.set_updatedAt d (Recipe.set_status st r)).
Proof. by repeat split. Qed.

Lemma exec_heap_frame e o w a r :
  heap w !! a = Some r ->
  exists r',
    heap (exec e o w) !! a = Some r'
    /\ sameButStatus r r'
    /\ (isUpdateStatus o = false -> r' = r).
Proof.
  intros Hr. destruct o as [formData | id formData | id status | id];
    cbn [exec isUpdateStatus].
  - destruct (create_result e formData w) as (R & -> & _).
    exists r. cbn [snd heap].
    split; [by apply lookup_heap_snoc | split; [apply sameButStatus_refl | done]].
  - exists r. split; [|split; [apply sameButStatus_refl | done]].
    unfold recipeStorage.update, mbind, M_bind, getWorld. cbv beta iota.
    destruct (findIndex _ _); [|done].
    run_m. by apply lookup_heap_snoc.
  - destruct (find (hasId (heap w) id) (recipes w)) as [b|] eqn:Hfind.
    + rewrite (updateStatus_found _ _ _ _ _ Hfind). cbn [snd heap].
      rewrite lookup_status_write, Hr. destruct (decide (b = a)).
      * eexists. split; [done |]. split; [apply sameButStatus_write | done].
      * exists r. split; [done |]. split; [apply sameButStatus_refl | done].
    + rewrite updateStatus_absent by done.
      exists r. split; [done |]. split; [apply sameButStatus_refl | done].
  - exists r. split; [|split; [apply sameButStatus_refl | done]].
    unfold recipeStorage.delete, mbind, M_bind, getWorld. cbv beta iota.
    by destruct (findIndex _ _).
Qed.

Lemma run_heap_frame ops w a r :
  heap w !! a = Some r ->
  exists r',
    heap (run ops w) !! a = Some r'
    /\ sameButStatus r r'
    /\ (Forall (fun eo => isUpdateStatus (snd eo) = false) ops -> r' = r).
Proof.
  revert w r. induction ops as [|[e o] ops IH]; intros w r Hr.
  - exists r. split; [done |]. split; [apply sameButStatus_refl | done].
  - destruct (exec_heap_frame e o w a r Hr) as (r1 & Hr1 & Hs1 & He1).
    destruct (IH _ _ Hr1) as (r2 & Hr2 & Hs2 & He2).
    exists r2. split; [done |]. split; [by eapply sameButStatus_trans |].
    intros Hall. inversion Hall; subst. rewrite He2, He1; done.
Qed.

(** C5, as amended: [getAll] hands out a copy of the array of references and
    leaves the store as it is.  Whatever operations follow, every record seen
    through that copy keeps its id, name, ingredients, instructions, metadata
    and [createdAt]; when none of the operations is [updateStatus], the
    records seen through it are exactly the ones seen when it was returned. *)
Theorem getAll_snapshot_frame clock (w : World) :
  inv clock w ->
  let snapshot := fst (recipeStorage.getAll w) in
  snd (recipeStorage.getAll w) = w
  /\ snapshot = recipes w
  /\ forall ops,
       Forall2 (fun before after =>
                  exists r r', before = Some r /\ after = Some r'
                               /\ sameButStatus r r')
         (observe w snapshot) (observe (run ops w) snapshot)
       /\ (Forall (fun eo => isUpdateStatus (snd eo) = false) ops ->
           observe (run ops w) snapshot = observe w snapshot).
Proof.
  intros Hinv. cbv zeta. run_m. split; [done |]. split; [done |].
  intros ops. pose proof (inv_live _ _ Hinv) as Hlive.
  unfold observe. induction (recipes w) as [|a l IH]; cbn [map].
  - split; [constructor | done].
  - destruct IH as [IH1 IH2].
    { intros b Hb. apply Hlive. by right. }
    destruct (Hlive a) as (r & Hr); [by left |].
    destruct (run_heap_frame ops w a r Hr) as (r' & Hr' & Hs & He).
    split.
    + constructor; [|done]. exists r, r'. by rewrite Hr, Hr'.
    + intros Hall. rewrite Hr', Hr, (He Hall). f_equal. by apply IH2.
Qed.

(** C5, as stated, fails: a status change made by [updateStatus] after
    [getAll] shows through the array [getAll] returned. *)
Lemma getAll_shares_records :
  let e := mkEnv 1705800000000 1705800000000 (js "k3j5x0p2q") in
  let snapshot := fst (recipeStorage.getAll initialWorld) in
  let w' := snd (recipeStorage.updateStatus e (js "1") made initialWorld) in
  observe initialWorld snapshot = [Some seed1; Some seed2]
  /\ observe w' snapshot
     = [Some (Recipe.set_updatedAt 1705800000000 (Recipe.set_status made seed1));
        Some seed2]
  /\ Recipe.status seed1 = favorite.
Proof. cbv zeta. repeat split. Qed.

(** C6: in a reachable store, with a clock that has not run backwards, an
    update of a present id with a valid form input yields a record with the
    [createdAt] of the record it replaces and an [updatedAt] not before that
    record's; the PUT handler answers 200 with it. *)
Theorem update_keeps_createdAt
    clock (w : World) (e : Env) (id : jsstring)
    (formData : RecipeFormData.t) (status : option RecipeStatus) :
  reachable clock w ->
  (clock <= now e)%Z ->
  present w id ->
  trim (RecipeFormData.name formData) <> [] ->
  exists original r updated R w',
    fst (recipeStorage.getById id w) = Some original
    /\ heap w !! original = Some r
    /\ recipeStorage.update e id formData w = (Some updated, w')
    /\ PUT e (Some id) (PutBody.mk status formData) w = (Success 200 updated, w')
    /\ heap w' !! updated = Some R
    /\ updated ∈ recipes w'
    /\ Recipe.id R = id
    /\ Recipe.createdAt R = Recipe.createdAt r
    /\ (Recipe.updatedAt r <= Recipe.updatedAt R)%Z.
Proof.
  intros Hreach Hle Hpres Hname.
  pose proof (reachable_inv _ _ Hreach) as Hinv.
  apply present_findIndex in Hpres as (index & Hidx).
  assert (Hne : id <> []).
  { destruct (findIndex_Some _ _ _ Hidx) as (a & Hl & Hp & _).
    apply hasId_true in Hp as (r & Hr & <-).
    eapply inv_id; [done | by eapply list_elem_of_lookup_2 | done]. }
  destruct (update_found e id formData w index Hne Hidx)
    as (a & r & R & Hl & Hfind & Hr & Hrid & Hupd & Hid & _ & Hc & Hu).
  assert (Ha : a ∈ recipes w) by (by eapply list_elem_of_lookup_2).
  exists a, r, (length (heap w)), R. eexists. repeat split.
  - run_m. done.
  - done.
  - exact Hupd.
  - unfold PUT, idGiven, statusOnly. cbn [PutBody.status PutBody.formData].
    rewrite (truthy_nonempty id Hne).
    assert (Hn : truthy (RecipeFormData.name formData) = true).
    { destruct (RecipeFormData.name formData); [by destruct Hname | done]. }
    rewrite Hn, (truthy_nonempty _ Hname). cbn [negb].
    destruct status; unfold mbind, M_bind; rewrite Hupd; reflexivity.
  - cbn [heap]. apply lookup_heap_new.
  - cbn [recipes]. eapply list_elem_of_lookup_2.
    apply list_lookup_insert_eq. by eapply lookup_lt_Some.
  - done.
  - done.
  - rewrite Hu. pose proof (inv_dates _ _ Hinv a r Ha Hr). lia.
Qed.

(** C7: [updateStatus] on a present id writes [status] and [updatedAt] of the
    first record with that id and nothing else: the other fields of that
    record, the array [recipes], every other object and so every other slot
    of the store stay as they were.  On an absent id it returns nothing,
    changes nothing, and the PUT handler answers 404. *)
Theorem updateStatus_writes_two_fields
    (w : World) (e : Env) (id : jsstring) (status : RecipeStatus) :
  NoDup (recipes w) ->
  (present w id ->
   exists index a r r' w',
     findIndex (hasId (heap w) id) (recipes w) = Some index
     /\ recipes w !! index = Some a
     /\ heap w !! a = Some r
     /\ Recipe.id r = id
     /\ recipeStorage.updateStatus e id status w = (Some a, w')
     /\ recipes w' = recipes w
     /\ heap w' !! a = Some r'
     /\ sameButStatus r r'
     /\ Recipe.status r' = status
     /\ Recipe.updatedAt r' = now e
     /\ (forall b, b <> a -> heap w' !! b = heap w !! b)
     /\ (forall j b, j <> index -> recipes w !! j = Some b ->
                     heap w' !! b = heap w !! b))
  /\ (~ present w id ->
      recipeStorage.updateStatus e id status w = (None, w)
      /\ (id <> [] ->
          forall formData, RecipeFormData.name formData = [] ->
          PUT e (Some id) (PutBody.mk (Some status) formData) w
          = (Failure 404 (js "Recipe not found"), w))).
Proof.
  intros Hnd. split.
  - intros (index & Hidx)%present_findIndex.
    destruct (findIndex_Some _ _ _ Hidx) as (a & Hl & Hp & Hfind & _).
    apply hasId_true in Hp as (r & Hr & Hrid).
    exists index, a, r. do 2 eexists.
    split; [done |]. split; [done |]. split; [done |]. split; [done |].
    split; [by apply updateStatus_found |]. cbn [heap recipes].
    split; [done |]. rewrite lookup_status_write, decide_True, Hr by done.
    split; [reflexivity |]. split; [apply sameButStatus_write |].
    split; [done |]. split; [done |]. split.
    + intros b Hb. rewrite lookup_status_write. by rewrite decide_False.
    + intros j b Hj Hb. rewrite lookup_status_write.
      rewrite decide_False; [done |]. intros ->.
      apply Hj. by eapply NoDup_lookup.
  - intros Habs%absent_findIndex%find_None. split.
    + by apply updateStatus_absent.
    + intros Hne formData Hname.
      unfold PUT, idGiven, statusOnly. cbn [PutBody.status PutBody.formData].
      rewrite (truthy_nonempty id Hne), Hname. cbn [truthy negb].
      unfold mbind, M_bind. by rewrite updateStatus_absent.
Qed.

(** C8: deleting an id that is not in the store returns [false], which the
    DELETE handler reports as 404 "Recipe not found", and leaves the store
    as it was: same array, same objects. *)
Theorem delete_absent_leaves_store (w : World) (id : jsstring) :
  ~ present w id ->
  recipeStorage.delete id w = (false, w)
  /\ (id <> [] ->
      DELETE (Some id) w = (Failure 404 (js "Recipe not found"), w)).
Proof.
  intros Habs%absent_findIndex. split.
  - by apply delete_absent.
  - intros Hne. unfold DELETE, idGiven. rewrite (truthy_nonempty id Hne).
    unfold mbind, M_bind. by rewrite delete_absent.
Qed.

(** C10: a PUT that is not a status-only update and succeeds puts, in the
    slot of the record it replaces, a record whose status is to-try, whatever
    the status was; and no store operation other than [updateStatus] leaves
    an object with a status other than to-try that it did not have before. *)
Theorem full_update_resets_status :
  (forall e recipeId body w updated w',
     statusOnly body = None ->
     PUT e recipeId body w = (Success 200 updated, w') ->
     exists id index old R,
       recipeId = Some id
       /\ findIndex (hasId (heap w) id) (recipes w) = Some index
       /\ recipes w !! index = Some old
       /\ recipes w' = <[index := updated]> (recipes w)
       /\ heap w' !! updated = Some R
       /\ Recipe.status R = to_try)
  /\ (forall e o w a r',
        heap (exec e o w) !! a = Some r' ->
        Recipe.status r' <> to_try ->
        heap w !! a = Some r'
        \/ exists id, o = OpUpdateStatus id (Recipe.status r')).
Proof.
  split.
  - intros e recipeId body w updated w' Hso. unfold PUT. rewrite Hso.
    destruct (idGiven recipeId) as [id|] eqn:Hgiven; [|done].
    assert (recipeId = Some id /\ id <> []) as [-> Hne].
    { unfold idGiven in Hgiven. destruct recipeId as [i|]; [|done].
      destruct i; [done |]. by injection Hgiven as <-. }
    destruct (negb _); [done |].
    destruct (findIndex (hasId (heap w) id) (recipes w)) as [index|] eqn:Hidx.
    + destruct (update_found e id (PutBody.formData body) w index Hne Hidx)
        as (a & r & R & Hl & _ & _ & _ & Hupd & _ & Hst & _).
      unfold mbind, M_bind. rewrite Hupd. intros [= <- <-].
      exists id, index, a, R. cbn [heap recipes].
      repeat split; try done. apply lookup_heap_new.
    + unfold mbind, M_bind. by rewrite update_absent.
  - intros e o w a r' Hr' Hst.
    destruct (heap w !! a) as [r|] eqn:Hr.
    + destruct (exec_heap_frame e o w a r Hr) as (r1 & Hr1 & _ & He).
      rewrite Hr1 in Hr'. injection Hr' as ->.
      destruct o as [formData | id formData | id status | id];
        try (left; by rewrite He).
      cbn [exec] in Hr1.
      destruct (find (hasId (heap w) id) (recipes w)) as [b|] eqn:Hfind.
      * rewrite (updateStatus_found _ _ _ _ _ Hfind) in Hr1.
        cbn [snd heap] in Hr1. rewrite lookup_status_write, Hr in Hr1.
        destruct (decide (b = a)); injection Hr1 as <-; [|by left].
        right. by exists id.
      * rewrite updateStatus_absent in Hr1 by done. cbn [snd] in Hr1.
        left. congruence.
    + exfalso. destruct o as [formData | id formData | id status | id];
        cbn [exec] in Hr'.
      * destruct (create_result e formData w) as (R & Hcr & _ & HR & _).
        rewrite Hcr in Hr'. cbn [snd heap] in Hr'.
        apply lookup_ge_None in Hr.
        destruct (decide (a = length (heap w))) as [->|].
        -- rewrite lookup_heap_new in Hr'. congruence.
        -- rewrite lookup_ge_None_2 in Hr'; [done |].
           rewrite length_app. simpl. lia.
      * revert Hr'. unfold recipeStorage.update, mbind, M_bind, getWorld.
        cbv beta iota. destruct (findIndex _ _); [|cbn; congruence].
        run_m. apply lookup_ge_None in Hr.
        destruct (decide (a = length (heap w))) as [->|].
        -- rewrite lookup_heap_new. intros [= <-]. by apply Hst.
        -- rewrite lookup_ge_None_2; [done |]. rewrite length_app. simpl. lia.
      * destruct (find (hasId (heap w) id) (recipes w)) as [b|] eqn:Hfind.
        -- rewrite (updateStatus_found _ _ _ _ _ Hfind) in Hr'.
           cbn [snd heap] in Hr'. rewrite lookup_status_write, Hr in Hr'.
           by destruct (decide (b = a)).
        -- rewrite updateStatus_absent in Hr' by done. cbn in Hr'. congruence.
      * revert Hr'. unfold recipeStorage.delete, mbind, M_bind, getWorld.
        cbv beta iota. destruct (findIndex _ _); cbn; congruence.
Qed.

(** ** The query filter *)

Lemma filter_all_true {A} (p : A -> bool) (l : list A) :
  (forall a, p a = true) -> filter (fun a => p a) l = l.
Proof.
  intros H. induction l as [|x l IH]; [done |].
  rewrite filter_cons, IH, H. done.
Qed.

Lemma filter_ext_bool {A} (p q : A -> bool) (l : list A) :
  (forall a, p a = q a) -> filter (fun a => p a) l = filter (fun a => q a) l.
Proof.
  intros H. induction l as [|x l IH]; [done |].
  rewrite !filter_cons, IH, H. done.
Qed.

Lemma filter_and {A} (p q : A -> bool) (l : list A) :
  filter (fun a => q a) (filter (fun a => p a) l)
  = filter (fun a => p a && q a) l.
Proof.
  induction l as [|x l IH]; [done |].
  rewrite !filter_cons. destruct (p x) eqn:Hp; simpl.
  - rewrite filter_cons, IH. by destruct (q x).
  - by rewrite IH.
Qed.

Lemma filter_stronger_sublist {A} (p q : A -> bool) (l : list A) :
  (forall a, p a = true -> q a = true) ->
  filter (fun a => p a) l `sublist_of` filter (fun a => q a) l.
Proof.
  intros H. induction l as [|x l IH]; [constructor |].
  rewrite !filter_cons. destruct (p x) eqn:Hp; simpl.
  - rewrite (H x Hp). simpl. by constructor.
  - destruct (q x); simpl; [by constructor | done].
Qed.

Section SearchProperties.
Variable unicodeLower : jsstring -> jsstring.

Lemma search_keeps (filters : SearchFilters.t) (w : World) :
  recipeStorage.search unicodeLower filters w
  = (filter (fun a => recipeStorage.keeps unicodeLower (heap w) filters a)
       (recipes w), w).
Proof.
  unfold recipeStorage.search, mbind, mret, M_bind, M_ret, getWorld.
  cbv beta iota zeta. f_equal.
  assert (Hq : forall l, recipeStorage.byQuery unicodeLower (heap w) filters l
    = filter (fun a => recipeStorage.keepQuery unicodeLower (heap w) filters a) l).
  { intros l. unfold recipeStorage.byQuery, recipeStorage.keepQuery.
    destruct (truthy _); [done | by rewrite filter_all_true]. }
  assert (Hc : forall l, recipeStorage.byCuisine unicodeLower (heap w) filters l
    = filter (fun a => recipeStorage.keepCuisine unicodeLower (heap w) filters a) l).
  { intros l. unfold recipeStorage.byCuisine, recipeStorage.keepCuisine.
    destruct (SearchFilters.cuisineType filters) as [c|];
      [destruct (truthy c); [done |] |]; by rewrite filter_all_true. }
  assert (Hs : forall l, recipeStorage.byStatus (heap w) filters l
    = filter (fun a => recipeStorage.keepStatus (heap w) filters a) l).
  { intros l. unfold recipeStorage.byStatus, recipeStorage.keepStatus.
    destruct (SearchFilters.status filters);
      [done | by rewrite filter_all_true]. }
  assert (Hm : forall l, recipeStorage.byMaxPrepTime (heap w) filters l
    = filter (fun a => recipeStorage.keepMaxPrepTime (heap w) filters a) l).
  { intros l. unfold recipeStorage.byMaxPrepTime, recipeStorage.keepMaxPrepTime.
    destruct (SearchFilters.maxPrepTime filters) as [m|];
      [destruct (m =? 0)%Z; [|done] |]; by rewrite filter_all_true. }
  rewrite Hq, Hc, Hs, Hm, !filter_and. apply filter_ext_bool.
  intros a. unfold recipeStorage.keeps. by rewrite !andb_assoc.
Qed.

(** C2: with no criterion (empty query, no cuisine type, no status, no
    maximal preparation time) [search] returns the array [recipes] as it is;
    and for every filter specification it leaves the store (array and
    objects) as it was and returns a subsequence of [recipes], in the order
    of [recipes]. *)
Theorem search_no_criteria_and_order :
  (forall filters w,
     SearchFilters.query filters = [] ->
     SearchFilters.cuisineType filters = None ->
     SearchFilters.status filters = None ->
     SearchFilters.maxPrepTime filters = None ->
     fst (recipeStorage.search unicodeLower filters w) = recipes w)
  /\ (forall filters w,
        snd (recipeStorage.search unicodeLower filters w) = w
        /\ fst (recipeStorage.search unicodeLower filters w)
             `sublist_of` recipes w).
Proof.
  split.
  - intros filters w Hq Hc Hs Hm. rewrite search_keeps. cbn [fst].
    apply filter_all_true. intros a.
    unfold recipeStorage.keeps, recipeStorage.keepQuery,
      recipeStorage.keepCuisine, recipeStorage.keepStatus,
      recipeStorage.keepMaxPrepTime.
    by rewrite Hq, Hc, Hs, Hm.
  - intros filters w. rewrite search_keeps. cbn [fst snd].
    split; [done | apply sublist_filter].
Qed.

(** C9: when a filter specification keeps every criterion of another (the
    same non-empty query, the same cuisine type, status and maximal
    preparation time wherever the other gives one), its result is a
    subsequence of the other's, so it is not longer. *)
Theorem search_monotonic (f1 f2 : SearchFilters.t) (w : World) :
  extends f1 f2 ->
  fst (recipeStorage.search unicodeLower f2 w)
    `sublist_of` fst (recipeStorage.search unicodeLower f1 w)
  /\ (length (fst (recipeStorage.search unicodeLower f2 w))
      <= length (fst (recipeStorage.search unicodeLower f1 w)))%nat.
Proof.
  intros (Hq & Hc & Hs & Hm).
  assert (Hsub : fst (recipeStorage.search unicodeLower f2 w)
                   `sublist_of` fst (recipeStorage.search unicodeLower f1 w)).
  { rewrite !search_keeps. cbn [fst]. apply filter_stronger_sublist.
    intros a. unfold recipeStorage.keeps.
    rewrite !andb_true_iff. intros [[[H1 H2] H3] H4].
    repeat split.
    - unfold recipeStorage.keepQuery in *.
      destruct (SearchFilters.query f1) as [|c q] eqn:E1; [done |].
      rewrite Hq in H1 by done. exact H1.
    - unfold recipeStorage.keepCuisine in *.
      destruct (SearchFilters.cuisineType f1) as [c|] eqn:E1; [|done].
      by rewrite (Hc c eq_refl) in H2.
    - unfold recipeStorage.keepStatus in *.
      destruct (SearchFilters.status f1) as [st|] eqn:E1; [|done].
      by rewrite (Hs st eq_refl) in H3.
    - unfold recipeStorage.keepMaxPrepTime in *.
      destruct (SearchFilters.maxPrepTime f1) as [m|] eqn:E1; [|done].
      by rewrite (Hm m eq_refl) in H4. }
  split; [done | by apply sublist_length].
Qed.

End SearchProperties.

(** ** The rule-based suggestions *)

Section SuggestionProperties.
Variable unicodeLower : jsstring -> jsstring.
Let lower := toLowerCase unicodeLower.

Lemma suggestions_templates ingredients :
  suggestions unicodeLower ingredients `sublist_of` templates.
Proof.
  unfold suggestions, templates, pushIf.
  repeat match goal with
         | |- context [existsb ?f ?l] => destruct (existsb f l)
         end;
    cbn [app];
    repeat first [apply sublist_nil | apply sublist_skip | apply sublist_cons].
Qed.
Lemma filteredSuggestions_sublist ingredients preferences :
  filteredSuggestions unicodeLower ingredients preferences
    `sublist_of` suggestions unicodeLower ingredients.
Proof.
  unfold filteredSuggestions. cbv zeta.
  repeat match goal with
         | |- context [if ?b then _ else _] => destruct b
         end;
    repeat (etrans; [apply sublist_filter |]); done.
Qed.

(** C3, as amended: the generator returns the first four candidates of the
    filtered set, all of them when there are at most four: [min 4 n]
    candidates for a filtered set of [n].  That is [min 4 (max 2 n)] as soon
    as [n] is at least 2, and the empty sequence when [n] is 0; there are at
    most five candidates to start from. *)
Theorem suggestions_size (ingredients preferences : jsstring) :
  let filtered := filteredSuggestions unicodeLower ingredients preferences in
  let result := generateSmartSuggestions unicodeLower ingredients preferences in
  let n := length filtered in
  result = take 4 filtered
  /\ length result = Nat.min 4 n
  /\ (n <= 5)%nat
  /\ ((2 <= n)%nat -> length result = Nat.min 4 (Nat.max 2 n))
  /\ (n = 0%nat -> result = []).
Proof.
  cbv zeta. unfold generateSmartSuggestions, slice0. cbv zeta.
  set (filtered := filteredSuggestions unicodeLower ingredients preferences).
  assert (Ht : take (Nat.min 4 (Nat.max 2 (length filtered))) filtered
               = take 4 filtered).
  { destruct (le_lt_dec 4 (length filtered)).
    - f_equal. lia.
    - rewrite !take_ge by lia. done. }
  rewrite Ht. split; [done |]. split; [by rewrite length_take |].
  split; [|split].
  - pose proof (sublist_length _ _
      (filteredSuggestions_sublist ingredients preferences)) as H1.
    pose proof (sublist_length _ _ (suggestions_templates ingredients)) as H2.
    fold filtered in H1. simpl in H2. lia.
  - intros Hn. rewrite length_take. lia.
  - intros Hn. destruct filtered; [done | discriminate].
Qed.

(** On ASCII text, a lower-case word found in the text as written is found
    in the lower-cased text. *)
Lemma startsWith_map (f : N -> N) (s p : jsstring) :
  startsWith s p = true -> startsWith (map f s) (map f p) = true.
Proof.
  revert s. induction p as [|a p IH]; intros [|b s]; simpl; try done.
  intros [Hab Hs]%andb_true_iff. apply N.eqb_eq in Hab as ->.
  by rewrite N.eqb_refl, IH.
Qed.

Lemma includes_map (f : N -> N) (s needle : jsstring) :
  includes s needle = true -> includes (map f s) (map f needle) = true.
Proof.
  induction s as [|b s IH]; simpl.
  - rewrite orb_false_r. intros H. rewrite orb_false_r.
    by apply (startsWith_map f []).
  - intros [H|H]%orb_true_iff; apply orb_true_iff.
    + left. by apply (startsWith_map f (b :: s)).
    + right. by apply IH.
Qed.

Lemma includes_lower_ascii (text word : jsstring) :
  forallb isAscii text = true ->
  map asciiLower word = word ->
  includes text word = true ->
  includes (lower text) word = true.
Proof.
  intros Hascii Hword H. unfold lower, toLowerCase. rewrite Hascii, <- Hword.
  by apply includes_map.
Qed.

Lemma templates_lowercase s ing :
  s ∈ templates -> ing ∈ SuggestedRecipe.ingredients s -> lower ing = ing.
Proof.
  unfold templates. intros Hs.
  repeat (apply elem_of_cons in Hs as [->|Hs];
          [intros Hing; cbn [SuggestedRecipe.ingredients] in Hing;
           repeat (apply elem_of_cons in Hing as [->|Hing];
                   [by vm_compute |]);
           by apply elem_of_nil in Hing |]).
  by apply elem_of_nil in Hs.
Qed.

(** C4: when the lower-cased preference text contains "vegetarian", "easy"
    and "quick", every candidate the generator returns has difficulty Easy, a
    preparation time of at most 30, and is tagged vegetarian or has no
    ingredient line containing chicken, meat or fish (neither as written nor
    lower-cased).  This holds whatever the number of triggered candidates,
    so also when there are at least 3. *)
Theorem preferences_narrow (ingredients preferences : jsstring) :
  includes (lower preferences) (js "vegetarian") = true ->
  includes (lower preferences) (js "easy") = true ->
  includes (lower preferences) (js "quick") = true ->
  Forall (fun s =>
            SuggestedRecipe.difficulty s = Easy
            /\ (SuggestedRecipe.preparationTime s <= 30)%Z
            /\ (js "vegetarian" ∈ SuggestedRecipe.tags s
                \/ forall ing tok,
                     ing ∈ SuggestedRecipe.ingredients s ->
                     tok ∈ meatTokens ->
                     includes ing tok = false
                     /\ includes (lower ing) tok = false))
    (generateSmartSuggestions unicodeLower ingredients preferences).
Proof.
  intros Hv He Hq. apply Forall_forall. intros s Hs.
  unfold generateSmartSuggestions, slice0 in Hs. cbv zeta in Hs.
  apply (sublist_subseteq _ _ (sublist_take _ _)) in Hs.
  pose proof (sublist_subseteq _ _ (suggestions_templates ingredients)) as Htpl.
  unfold filteredSuggestions in Hs. cbv zeta in Hs.
  fold lower in Hs. rewrite Hv, He, Hq in Hs. cbn [orb] in Hs.
  apply list_elem_of_filter in Hs as [Heasy Hs].
  apply list_elem_of_filter in Hs as [Hquick Hs].
  apply list_elem_of_filter in Hs as [Hveg Hs].
  split; [|split].
  - unfold isEasy in Heasy. by apply bool_decide_unpack in Heasy.
  - unfold isQuick in Hquick. apply Is_true_eq_true in Hquick. lia.
  - unfold isVegetarian in Hveg. apply Is_true_eq_true in Hveg.
    apply orb_true_iff in Hveg as [Htag | Hmeat].
    + left. unfold arrayIncludes in Htag.
      apply existsb_exists in Htag as (t & Ht & Heq).
      unfold streq in Heq. apply bool_decide_eq_true in Heq as ->.
      by apply list_elem_of_In.
    + right. intros ing tok Hing Htok.
      apply negb_true_iff in Hmeat. unfold hasMeat in Hmeat.
      rewrite (templates_lowercase s ing (Htpl _ Hs) Hing).
      assert (H : includes (lower ing) (js "chicken")
                  || includes (lower ing) (js "meat")
                  || includes (lower ing) (js "fish") = false).
      { destruct (_ || _ || _) eqn:E; [|done].
        rewrite <- Hmeat. symmetry. apply existsb_exists.
        exists ing. split; [by apply list_elem_of_In | exact E]. }
      rewrite (templates_lowercase s ing (Htpl _ Hs) Hing) in H.
      apply orb_false_iff in H as [H H3]. apply orb_false_iff in H as [H1 H2].
      unfold meatTokens in Htok.
      repeat (apply elem_of_cons in Htok as [->|Htok]; [done |]).
      by apply elem_of_nil in Htok.
Qed.

End SuggestionProperties.

(** * Instances *)

Lemma present_seed1 : present initialWorld (js "1").
Proof.
  exists 0%nat, seed1. split; [apply list_elem_of_here | split; reflexivity].
Qed.

Lemma absent_9 : ~ present initialWorld (js "9").
Proof. apply absent_findIndex. reflexivity. Qed.

Lemma create_tacos :
  exists R,
    recipeStorage.create sampleEnv tacos initialWorld
      = (2%nat, mkWorld [seed1; seed2; R] [0; 1; 2]%nat)
    /\ Recipe.status R = to_try
    /\ Recipe.createdAt R = Recipe.updatedAt R
    /\ Recipe.ingredients R = [js "beef"; js "tortilla"; js "cheese"]
    /\ Recipe.instructions R = [js "cook beef"; js "assemble"].
Proof.
  destruct (create_returns_parsed_record sampleEnv tacos initialWorld)
    as (R & Hc & _ & _ & Hs & Hd & Hi & _ & Hn);
    [by vm_compute | by vm_compute | by vm_compute |].
  exists R. split; [exact Hc |]. split; [exact Hs |]. split; [exact Hd |].
  apply delimitedEntries_unique in Hi, Hn. split; [exact Hi | exact Hn].
Defined.

Lemma one_candidate_not_two :
  (forall unicodeLower,
     length (filteredSuggestions unicodeLower (js "rice") []) = 1%nat)
  /\ (forall unicodeLower,
        generateSmartSuggestions unicodeLower (js "rice") []
        = [savoryRicePilaf])
  /\ Nat.min 4 (Nat.max 2 1) = 2%nat.
Proof. repeat split. Qed.

Lemma preferences_narrow_pasta_tomato_egg :
  length (suggestions asciiOnly (js "pasta, tomato, egg")) = 3%nat
  /\ Forall (fun s =>
               SuggestedRecipe.difficulty s = Easy
               /\ (SuggestedRecipe.preparationTime s <= 30)%Z)
       (generateSmartSuggestions asciiOnly (js "pasta, tomato, egg")
          (js "Vegetarian, easy, quick")).
Proof.
  split; [reflexivity |].
  eapply Forall_impl.
  - apply (preferences_narrow asciiOnly (js "pasta, tomato, egg")
             (js "Vegetarian, easy, quick")); reflexivity.
  - intros s (H1 & H2 & _). split; [exact H1 | exact H2].
Defined.

Lemma snapshot_after_create_and_delete :
  let ops := [(sampleEnv, OpCreate tacos); (sampleEnv, OpDelete (js "2"))] in
  fst (recipeStorage.getAll initialWorld) = [0; 1]%nat
  /\ recipes (run ops initialWorld) = [0; 2]%nat
  /\ observe (run ops initialWorld) [0; 1]%nat = observe initialWorld [0; 1]%nat.
Proof.
  cbv zeta.
  destruct (getAll_snapshot_frame _ initialWorld inv_initial) as (_ & Hs & H).
  split; [exact Hs |]. split; [reflexivity |].
  apply (H [(sampleEnv, OpCreate tacos); (sampleEnv, OpDelete (js "2"))]).
  repeat constructor.
Defined.

Lemma update_seed1_keeps_createdAt :
  exists updated R w',
    recipeStorage.update sampleEnv (js "1") tacos initialWorld
      = (Some updated, w')
    /\ heap w' !! updated = Some R
    /\ Recipe.createdAt R = 1705276800000%Z
    /\ (1705276800000 <= Recipe.updatedAt R)%Z.
Proof.
  destruct (update_keeps_createdAt 1705708800000 initialWorld sampleEnv
              (js "1") tacos None reach_init)
    as (original & r & updated & R & w' & Hg & Hr & Hu & _ & Hh & _ & _ & Hc & Hle);
    [by vm_compute | exact present_seed1 | by vm_compute |].
  injection Hg as <-. injection Hr as <-.
  exists updated, R, w'. repeat split; [exact Hu | exact Hh | exact Hc | exact Hle].
Defined.

Lemma updateStatus_seed2 :
  (exists r' w',
     recipeStorage.updateStatus sampleEnv (js "2") favorite initialWorld
       = (Some 1%nat, w')
     /\ recipes w' = [0; 1]%nat
     /\ heap w' !! 1%nat = Some r'
     /\ sameButStatus seed2 r'
     /\ Recipe.status r' = favorite
     /\ heap w' !! 0%nat = Some seed1)
  /\ recipeStorage.updateStatus sampleEnv (js "9") favorite initialWorld
     = (None, initialWorld).
Proof.
  assert (Hnd : NoDup (recipes initialWorld)).
  { apply (bool_decide_unpack (NoDup [0%nat; 1%nat])). reflexivity. }
  split.
  - destruct (updateStatus_writes_two_fields initialWorld sampleEnv (js "2")
                favorite Hnd) as [H _].
    destruct H as (index & a & r & r' & w' & Hi & Hl & Hr & _ & Hu & Hrec
                   & Hr' & Hs & Hst & _ & Hother & _).
    { exists 1%nat, seed2.
      split; [apply list_elem_of_further, list_elem_of_here | split; reflexivity]. }
    injection Hi as <-. injection Hl as <-. injection Hr as <-.
    exists r', w'. repeat split; try assumption; try apply Hs.
    rewrite Hother by discriminate. reflexivity.
  - apply (updateStatus_writes_two_fields initialWorld sampleEnv (js "9")
             favorite Hnd). exact absent_9.
Defined.

Lemma delete_unknown_id :
  recipeStorage.delete (js "9") initialWorld = (false, initialWorld)
  /\ DELETE (Some (js "9")) initialWorld
     = (Failure 404 (js "Recipe not found"), initialWorld).
Proof.
  destruct (delete_absent_leaves_store initialWorld (js "9") absent_9) as [H1 H2].
  split; [exact H1 | apply H2; discriminate].
Defined.

Lemma search_more_criteria :
  (length (fst (recipeStorage.search asciiOnly chickenMadeWithin30 initialWorld))
   <= length (fst (recipeStorage.search asciiOnly within30 initialWorld)))%nat
  /\ fst (recipeStorage.search asciiOnly chickenMadeWithin30 initialWorld) = [1%nat]
  /\ fst (recipeStorage.search asciiOnly within30 initialWorld) = [0; 1]%nat.
Proof.
  split; [|split; reflexivity].
  apply (search_monotonic asciiOnly within30 chickenMadeWithin30 initialWorld).
  repeat split; try discriminate.
  - intros H. by destruct H.
  - intros m [= <-]. reflexivity.
Defined.

(** * Further properties *)

(** ** Forms and stored entries *)

Lemma trim_idempotent (w : jsstring) : trim (trim w) = trim w.
Proof.
  symmetry. apply trimmedOf_trim.
  destruct (trim_trimmedOf w) as (a & b & _ & _ & _ & Hh & Hl).
  exists [], []. rewrite app_nil_r. repeat split; try done; constructor.
Qed.

Lemma trim_keeps_out (sep : N) (w : jsstring) : ~ In sep w -> ~ In sep (trim w).
Proof.
  intros Hw Hin. apply Hw.
  destruct (trim_trimmedOf w) as (a & b & Heq & _).
  rewrite Heq. apply in_or_app. right. apply in_or_app. by left.
Qed.

Lemma splitTrim_canonical (sep : N) (s : jsstring) :
  Forall (canonicalEntry sep) (splitTrim sep s).
Proof.
  unfold splitTrim. pose proof (split_no_sep sep s) as Hall.
  induction (split sep s) as [|p ps IH]; [constructor |].
  inversion Hall as [|? ? Hp Hps]; subst. cbn [map]. rewrite filter_cons.
  destruct (decide _) as [Ht|_]; [|by apply IH].
  constructor; [|by apply IH]. repeat split.
  - intros E. rewrite E in Ht. destruct Ht.
  - apply trim_idempotent.
  - by apply trim_keeps_out.
Qed.

Lemma split_padded (sep : N) (pad s : jsstring) :
  ~ In sep pad ->
  exists p ps, split sep s = p :: ps /\ split sep (pad ++ s) = (pad ++ p) :: ps.
Proof.
  induction pad as [|c pad IH]; intros Hpad.
  - pose proof (split_not_nil sep s). cbn [app].
    destruct (split sep s) as [|p ps]; [done |]. by exists p, ps.
  - destruct IH as (p & ps & Hs & Hps); [intros ?; apply Hpad; by right |].
    exists p, ps. split; [done |]. cbn [app split].
    destruct (N.eqb_spec c sep) as [-> | _]; [destruct Hpad; by left |].
    by rewrite Hps.
Qed.

Lemma trim_padded (pad p : jsstring) :
  Forall (fun c => isWhitespace c = true) pad -> trim (pad ++ p) = trim p.
Proof. intros H. unfold trim, trimStart. by rewrite dropWhile_all. Qed.

(** Joining canonical entries with the delimiter followed by blank padding
    and parsing the text again gives the entries back. *)
Lemma splitTrim_joinWith (sep : N) (pad : jsstring) (l : list jsstring) :
  Forall (fun c => isWhitespace c = true) pad -> ~ In sep pad ->
  Forall (canonicalEntry sep) l ->
  splitTrim sep (joinWith (sep :: pad) l) = l.
Proof.
  intros Hws Hpad. induction 1 as [|x l (Hne & Htrim & Hsep) Hl IH]; [done |].
  destruct l as [|y l].
  - cbn [joinWith]. unfold splitTrim. rewrite split_no_occurrence by done.
    cbn [map]. rewrite Htrim, filter_cons. by destruct x.
  - change (joinWith (sep :: pad) (x :: y :: l))
      with (x ++ sep :: (pad ++ joinWith (sep :: pad) (y :: l))).
    unfold splitTrim in *. rewrite split_app_sep by done.
    destruct (split_padded sep pad (joinWith (sep :: pad) (y :: l)) Hpad)
      as (p & ps & Hs & Hps).
    rewrite Hps. rewrite Hs in IH. cbn [map] in *.
    rewrite trim_padded by done. rewrite Htrim, filter_cons.
    rewrite decide_True; [by rewrite IH | by destruct x].
Qed.

Lemma round_trip_comma (l : list jsstring) :
  Forall (canonicalEntry comma) l ->
  splitTrim comma (joinWith (js ", ") l) = l.
Proof.
  apply (splitTrim_joinWith comma [32]).
  - by repeat constructor.
  - intros [H|[]]. discriminate.
Qed.

Lemma round_trip_newline (l : list jsstring) :
  Forall (canonicalEntry newline) l ->
  splitTrim newline (joinWith [newline] l) = l.
Proof. apply (splitTrim_joinWith newline []); [constructor | intros []]. Qed.

(** X1: the form shows a list of entries joined by ", " (ingredients, tags)
    or by a newline (instructions); parsing that text gives the list back
    exactly when every entry is not empty, trimmed and free of the
    delimiter. *)
Theorem form_text_round_trip (l : list jsstring) :
  (splitTrim comma (joinWith (js ", ") l) = l
   <-> Forall (canonicalEntry comma) l)
  /\ (splitTrim newline (joinWith [newline] l) = l
      <-> Forall (canonicalEntry newline) l).
Proof.
  split; split.
  - intros <-. apply splitTrim_canonical.
  - apply round_trip_comma.
  - intros <-. apply splitTrim_canonical.
  - apply round_trip_newline.
Qed.

(** The record that [convertFormDataToRecipe] builds, field by field. *)
Lemma convert_fields e formData (id : option jsstring) w :
  exists R,
    convertFormDataToRecipe e formData id w
      = (length (heap w), mkWorld (heap w ++ [R]) (recipes w))
    /\ Recipe.name R = trim (RecipeFormData.name formData)
    /\ Recipe.ingredients R
       = splitTrim comma (RecipeFormData.ingredients formData)
    /\ Recipe.instructions R
       = splitTrim newline (RecipeFormData.instructions formData)
    /\ Recipe.metadata R
       = RecipeMetadata.mk
           (trim (RecipeFormData.cuisineType formData))
           (RecipeFormData.preparationTime formData)
           (RecipeFormData.servings formData)
           (RecipeFormData.difficulty formData)
           (splitTrim comma (RecipeFormData.tags formData))
    /\ Recipe.status R = to_try
    /\ Recipe.updatedAt R = now e.
Proof. eexists. split; [run_m; reflexivity | done]. Qed.

Lemma converted_canonical e formData id w R w' a :
  convertFormDataToRecipe e formData id w = (a, w') ->
  heap w' !! a = Some R -> canonicalRecipe R.
Proof.
  destruct (convert_fields e formData id w)
    as (R0 & -> & Hn & Hi & Hs & Hm & _).
  intros [= <- <-]. cbn [heap]. rewrite lookup_heap_new. intros [= <-].
  unfold canonicalRecipe. rewrite Hn, Hi, Hs, Hm.
  cbn [RecipeMetadata.cuisineType RecipeMetadata.tags].
  repeat split; try apply trim_idempotent; apply splitTrim_canonical.
Qed.

Lemma not_In_check (sep : N) (x : jsstring) :
  existsb (N.eqb sep) x = false -> ~ In sep x.
Proof.
  intros H Hin. assert (existsb (N.eqb sep) x = true); [|congruence].
  apply existsb_exists. exists sep. split; [done | apply N.eqb_refl].
Qed.

Lemma canonicalEntry_check (sep : N) (x : jsstring) :
  truthy x && streq (trim x) x && negb (existsb (N.eqb sep) x) = true ->
  canonicalEntry sep x.
Proof.
  intros [[H1 H2]%andb_true_iff H3%negb_true_iff]%andb_true_iff.
  repeat split.
  - by destruct x.
  - by apply bool_decide_eq_true in H2.
  - by apply not_In_check.
Qed.

Lemma canonical_seeds : heapCanonical initialWorld.
Proof.
  intros a r. destruct a as [|[|a]]; cbn; [| |done]; intros [= <-];
    (repeat split;
     repeat (constructor;
             [apply canonicalEntry_check; vm_compute; reflexivity |]);
     constructor).
Qed.

Lemma create_appends e formData w :
  exists R,
    recipeStorage.create e formData w
      = (length (heap w),
         mkWorld (heap w ++ [R]) (recipes w ++ [length (heap w)]))
    /\ canonicalRecipe R
    /\ Recipe.name R = trim (RecipeFormData.name formData)
    /\ Recipe.ingredients R
       = splitTrim comma (RecipeFormData.ingredients formData)
    /\ Recipe.instructions R
       = splitTrim newline (RecipeFormData.instructions formData)
    /\ RecipeMetadata.tags (Recipe.metadata R)
       = splitTrim comma (RecipeFormData.tags formData).
Proof.
  destruct (convert_fields e formData None w)
    as (R & Hc & Hn & Hi & Hs & Hm & _).
  exists R. split.
  - unfold recipeStorage.create, mbind, M_bind. rewrite Hc. reflexivity.
  - split; [|by rewrite Hm].
    eapply converted_canonical; [exact Hc | apply lookup_heap_new].
Qed.

Lemma update_cases e (id : jsstring) formData w :
  recipeStorage.update e id formData w = (None, w)
  \/ exists index R,
       findIndex (hasId (heap w) id) (recipes w) = Some index
       /\ recipeStorage.update e id formData w
          = (Some (length (heap w)),
             mkWorld (heap w ++ [R]) (<[index := length (heap w)]> (recipes w)))
       /\ canonicalRecipe R.
Proof.
  destruct (findIndex (hasId (heap w) id) (recipes w)) as [index|] eqn:Hidx.
  - right. destruct (convert_fields e formData (Some id) w) as (R & Hc & _).
    exists index, R. split; [done |]. split.
    + unfold recipeStorage.update, mbind, M_bind, getWorld. cbv beta iota.
      rewrite Hidx. cbv beta iota. rewrite Hc. reflexivity.
    + eapply converted_canonical; [exact Hc | apply lookup_heap_new].
  - left. by apply update_absent.
Qed.

Lemma heap_snoc_canonical (h : list Recipe.t) R :
  (forall a r, h !! a = Some r -> canonicalRecipe r) ->
  canonicalRecipe R ->
  forall a r, (h ++ [R]) !! a = Some r -> canonicalRecipe r.
Proof.
  intros Hh HR a r. destruct (h !! a) as [r0|] eqn:Hr0.
  - rewrite (lookup_heap_snoc _ R _ _ Hr0). intros [= <-]. by eapply Hh.
  - intros Hr. apply lookup_ge_None in Hr0.
    assert (a = length h) as ->.
    { apply lookup_lt_Some in Hr. rewrite length_app in Hr. simpl in Hr. lia. }
    rewrite lookup_heap_new in Hr. by injection Hr as <-.
Qed.

Lemma exec_canonical e o w : heapCanonical w -> heapCanonical (exec e o w).
Proof.
  intros Hw. destruct o as [formData | id formData | id status | id];
    cbn [exec].
  - destruct (create_appends e formData w) as (R & -> & HR & _).
    unfold heapCanonical. cbn [snd heap]. by apply heap_snoc_canonical.
  - destruct (update_cases e id formData w) as [-> | (index & R & _ & -> & HR)];
      [done |].
    unfold heapCanonical. cbn [snd heap]. by apply heap_snoc_canonical.
  - intros a r.
    destruct (find (hasId (heap w) id) (recipes w)) as [b|] eqn:Hfind.
    + rewrite (updateStatus_found _ _ _ _ _ Hfind). cbn [snd heap].
      rewrite lookup_status_write.
      destruct (decide (b = a)); [|by apply Hw].
      destruct (heap w !! a) as [r0|] eqn:Hr0; [|done].
      intros [= <-]. apply (Hw a r0 Hr0).
    + rewrite updateStatus_absent by done. by apply Hw.
  - unfold recipeStorage.delete, mbind, M_bind, getWorld. cbv beta iota.
    destruct (findIndex _ _); by apply Hw.
Qed.

Lemma reachable_canonical clock w : reachable clock w -> heapCanonical w.
Proof.
  induction 1 as [|clock w e o _ IH _]; [apply canonical_seeds |].
  by apply exec_canonical.
Qed.

(** X2: every record of a reachable store has a trimmed name and cuisine
    type, and ingredients, instructions and tags that are not empty,
    trimmed and free of their delimiter (comma, newline). *)
Theorem reachable_records_canonical clock (w : World) (a : addr) (r : Recipe.t) :
  reachable clock w ->
  a ∈ recipes w ->
  heap w !! a = Some r ->
  canonicalRecipe r.
Proof. intros Hreach _ Hr. by eapply reachable_canonical. Qed.

Lemma update_record e (id : jsstring) formData w index a r :
  id <> [] ->
  findIndex (hasId (heap w) id) (recipes w) = Some index ->
  find (hasId (heap w) id) (recipes w) = Some a ->
  heap w !! a = Some r ->
  recipeStorage.update e id formData w
  = (Some (length (heap w)),
     mkWorld
       (heap w ++
        [Recipe.mk id
           (trim (RecipeFormData.name formData))
           (splitTrim comma (RecipeFormData.ingredients formData))
           (splitTrim newline (RecipeFormData.instructions formData))
           (RecipeMetadata.mk
              (trim (RecipeFormData.cuisineType formData))
              (RecipeFormData.preparationTime formData)
              (RecipeFormData.servings formData)
              (RecipeFormData.difficulty formData)
              (splitTrim comma (RecipeFormData.tags formData)))
           to_try (Recipe.createdAt r) (now e)])
       (<[index := length (heap w)]> (recipes w))).
Proof.
  intros Hid Hidx Hfind Hr.
  unfold recipeStorage.update, mbind, M_bind, getWorld. cbv beta iota.
  rewrite Hidx. unfold convertFormDataToRecipe, mbind, M_bind, getWorld, alloc.
  cbv beta iota. rewrite (truthy_nonempty id Hid), Hfind, Hr. reflexivity.
Qed.

(** X3: opening the edit form on a record of a reachable store and saving it
    unchanged stores a record with the same id, name, ingredients,
    instructions, metadata and [createdAt]; its status is to-try and its
    [updatedAt] the time of the call. *)
Theorem edit_without_change
    clock (w : World) (e : Env) (id : jsstring) :
  reachable clock w ->
  present w id ->
  exists original r updated R w',
    fst (recipeStorage.getById id w) = Some original
    /\ heap w !! original = Some r
    /\ recipeStorage.update e id (RecipeForm.formOfRecipe r) w
       = (Some updated, w')
    /\ heap w' !! updated = Some R
    /\ Recipe.id R = Recipe.id r
    /\ Recipe.name R = Recipe.name r
    /\ Recipe.ingredients R = Recipe.ingredients r
    /\ Recipe.instructions R = Recipe.instructions r
    /\ Recipe.metadata R = Recipe.metadata r
    /\ Recipe.createdAt R = Recipe.createdAt r
    /\ Recipe.status R = to_try
    /\ Recipe.updatedAt R = now e.
Proof.
  intros Hreach (index & Hidx)%present_findIndex.
  pose proof (reachable_inv _ _ Hreach) as Hinv.
  destruct (findIndex_Some _ _ _ Hidx) as (a & Hl & Hp & Hfind & _).
  apply hasId_true in Hp as (r & Hr & Hrid).
  assert (Ha : a ∈ recipes w) by (by eapply list_elem_of_lookup_2).
  assert (Hne : id <> []) by (rewrite <- Hrid; by eapply inv_id).
  destruct (reachable_canonical _ _ Hreach a r Hr) as (Hn & Hc & Hi & Hs & Ht).
  exists a, r, (length (heap w)). do 2 eexists.
  split; [by run_m |]. split; [done |].
  split; [by apply (update_record e id _ w index a r) |].
  cbn [heap]. split; [apply lookup_heap_new |].
  cbn [Recipe.id Recipe.name Recipe.ingredients Recipe.instructions
       Recipe.metadata Recipe.createdAt Recipe.status Recipe.updatedAt
       RecipeForm.formOfRecipe RecipeFormData.name RecipeFormData.ingredients
       RecipeFormData.instructions RecipeFormData.cuisineType
       RecipeFormData.preparationTime RecipeFormData.servings
       RecipeFormData.difficulty RecipeFormData.tags].
  rewrite Hn, Hc, (round_trip_comma _ Hi), (round_trip_newline _ Hs),
    (round_trip_comma _ Ht).
  repeat split; try done. by destruct (Recipe.metadata r).
Qed.

(** ** Looking up, replacing and removing records *)

Lemma find_intro (p : addr -> bool) (l : list addr) i a :
  l !! i = Some a ->
  p a = true ->
  (forall j b, l !! j = Some b -> (j < i)%nat -> p b = false) ->
  findIndex p l = Some i /\ find p l = Some a.
Proof.
  intros Hl Hp Hbefore.
  assert (H : list_find (fun a => p a) l = Some (i, a)).
  { apply list_find_Some. split; [done |]. split; [by rewrite Hp |].
    intros j b Hb Hj. rewrite (Hbefore j b Hb Hj). by intros []. }
  unfold find, findIndex. by rewrite H.
Qed.

Lemma hasId_snoc (h : list Recipe.t) R (id : jsstring) a :
  (a < length h)%nat -> hasId (h ++ [R]) id a = hasId h id a.
Proof.
  intros Ha. unfold hasId, deref. by rewrite lookup_app_l.
Qed.

Lemma live_lt clock w a : inv clock w -> a ∈ recipes w -> (a < length (heap w))%nat.
Proof.
  intros Hinv Ha. destruct (inv_live _ _ Hinv a Ha) as (r & Hr).
  by eapply lookup_lt_Some.
Qed.

(** X4: [getById] leaves the store alone and returns the first record of
    [recipes] whose id is the one asked for; it returns nothing exactly
    when no record has that id. *)
Theorem getById_first_match (w : World) (id : jsstring) :
  snd (recipeStorage.getById id w) = w
  /\ (forall a,
        fst (recipeStorage.getById id w) = Some a ->
        exists index r,
          recipes w !! index = Some a
          /\ heap w !! a = Some r
          /\ Recipe.id r = id
          /\ forall j b rb,
               (j < index)%nat -> recipes w !! j = Some b ->
               heap w !! b = Some rb -> Recipe.id rb <> id)
  /\ (fst (recipeStorage.getById id w) = None <-> ~ present w id).
Proof.
  run_m. split; [done |]. split.
  - intros a Hfind.
    destruct (findIndex (hasId (heap w) id) (recipes w)) as [index|] eqn:Hidx.
    2:{ apply find_None in Hidx. congruence. }
    destruct (findIndex_Some _ _ _ Hidx) as (a' & Hl & Hp & Hfind' & Hbefore).
    assert (a' = a) as -> by congruence.
    apply hasId_true in Hp as (r & Hr & Hrid).
    exists index, r. repeat split; try done.
    intros j b rb Hj Hb Hrb Heq.
    assert (hasId (heap w) id b = true) by (apply hasId_true; eauto).
    rewrite (Hbefore j b Hb Hj) in *. done.
  - rewrite find_None. symmetry. apply absent_findIndex.
Qed.

(** X5: after [create], looking up the id just generated returns the new
    record when no stored record had that id, and the older record that had
    it otherwise: [create] does not look for a collision. *)
Theorem create_then_getById
    clock (w : World) (e : Env) (formData : RecipeFormData.t) :
  reachable clock w ->
  let newRecipe := fst (recipeStorage.create e formData w) in
  let w' := snd (recipeStorage.create e formData w) in
  fst (recipeStorage.getById (generateId e) w')
  = match fst (recipeStorage.getById (generateId e) w) with
    | Some older => Some older
    | None => Some newRecipe
    end.
Proof.
  intros Hreach. pose proof (reachable_inv _ _ Hreach) as Hinv. cbv zeta.
  destruct (create_result e formData w) as (R & -> & Hid & _).
  unfold recipeStorage.getById, mbind, mret, M_bind, M_ret, getWorld.
  cbn [fst snd heap recipes].
  destruct (findIndex (hasId (heap w) (generateId e)) (recipes w))
    as [index|] eqn:Hidx.
  - destruct (findIndex_Some _ _ _ Hidx) as (a & Hl & Hp & Hfind & Hbefore).
    rewrite Hfind.
    apply (find_intro _ (recipes w ++ [length (heap w)]) index a).
    + by apply lookup_app_l_Some.
    + rewrite hasId_snoc; [done |].
      eapply live_lt; [done | by eapply list_elem_of_lookup_2].
    + intros j b Hb Hj.
      assert (Hb' : recipes w !! j = Some b).
      { rewrite lookup_app_l in Hb; [done |].
        apply lookup_lt_Some in Hl. lia. }
      rewrite hasId_snoc; [by eapply Hbefore |].
      eapply live_lt; [done | by eapply list_elem_of_lookup_2].
  - pose proof Hidx as Hnone. apply find_None in Hnone. rewrite Hnone.
    rewrite findIndex_None in Hidx.
    apply (find_intro _ (recipes w ++ [length (heap w)]) (length (recipes w))).
    + rewrite lookup_app_r by done. by rewrite Nat.sub_diag.
    + apply hasId_true. exists R. split; [apply lookup_heap_new | done].
    + intros j b Hb Hj. rewrite lookup_app_l in Hb by done.
      assert (Hin : b ∈ recipes w) by (by eapply list_elem_of_lookup_2).
      rewrite hasId_snoc; [by apply Hidx | by eapply live_lt].
Qed.

(** X6: an update of a present id in a reachable store replaces the slot of
    the first record with that id and nothing else: [recipes] keeps its
    length and its other slots, every object that existed is unchanged, and
    [getById] of the id now returns the new record. *)
Theorem update_replaces_in_place
    clock (w : World) (e : Env) (id : jsstring)
    (formData : RecipeFormData.t) :
  reachable clock w ->
  present w id ->
  exists index updated w',
    findIndex (hasId (heap w) id) (recipes w) = Some index
    /\ recipeStorage.update e id formData w = (Some updated, w')
    /\ recipes w' = <[index := updated]> (recipes w)
    /\ length (recipes w') = length (recipes w)
    /\ recipes w' !! index = Some updated
    /\ (forall j, j <> index -> recipes w' !! j = recipes w !! j)
    /\ (forall a r, heap w !! a = Some r -> heap w' !! a = Some r)
    /\ fst (recipeStorage.getById id w') = Some updated.
Proof.
  intros Hreach (index & Hidx)%present_findIndex.
  pose proof (reachable_inv _ _ Hreach) as Hinv.
  destruct (findIndex_Some _ _ _ Hidx) as (a & Hl & Hp & Hfind & Hbefore).
  pose proof Hp as Hp'. apply hasId_true in Hp' as (r & Hr & Hrid).
  assert (Ha : a ∈ recipes w) by (by eapply list_elem_of_lookup_2).
  assert (Hne : id <> []) by (rewrite <- Hrid; by eapply inv_id).
  pose proof (lookup_lt_Some _ _ _ Hl) as Hlt.
  exists index, (length (heap w)). eexists.
  split; [done |].
  split; [by apply (update_record e id formData w index a r) |].
  cbn [heap recipes]. split; [done |]. split; [apply length_insert |].
  split; [by apply list_lookup_insert_eq |].
  split; [intros j Hj; by apply list_lookup_insert_ne |].
  split; [intros b rb Hb; by apply lookup_heap_snoc |].
  unfold recipeStorage.getById, mbind, mret, M_bind, M_ret, getWorld.
  cbn [fst heap recipes].
  apply (find_intro _ _ index).
  - by apply list_lookup_insert_eq.
  - apply hasId_true. eexists. split; [apply lookup_heap_new | done].
  - intros j b Hb Hj. rewrite list_lookup_insert_ne in Hb by lia.
    rewrite hasId_snoc; [by eapply Hbefore |].
    eapply live_lt; [done | by eapply list_elem_of_lookup_2].
Qed.

(** X7: deleting a present id removes the slot of the first record with that
    id and nothing else: the other slots keep their order, no object is
    touched, the DELETE handler answers 200 with the id; and when ids are
    unique in the store, the id is absent afterwards. *)
Theorem delete_removes_first_match (w : World) (id : jsstring) :
  present w id ->
  exists index w',
    findIndex (hasId (heap w) id) (recipes w) = Some index
    /\ recipeStorage.delete id w = (true, w')
    /\ heap w' = heap w
    /\ recipes w' = take index (recipes w) ++ drop (S index) (recipes w)
    /\ S (length (recipes w')) = length (recipes w)
    /\ (id <> [] -> DELETE (Some id) w = (Success 200 id, w'))
    /\ (uniqueIds w -> ~ present w' id).
Proof.
  intros (index & Hidx)%present_findIndex.
  destruct (findIndex_Some _ _ _ Hidx) as (a & Hl & Hp & _).
  apply hasId_true in Hp as (r & Hr & Hrid).
  pose proof (lookup_lt_Some _ _ _ Hl) as Hlt.
  exists index. eexists. split; [done |].
  split; [by apply delete_found |]. cbn [heap recipes].
  split; [done |]. split; [apply delete_take_drop |].
  split; [rewrite length_delete by eauto; lia |]. split.
  - intros Hne. unfold DELETE, idGiven. rewrite (truthy_nonempty id Hne).
    unfold mbind, M_bind. by rewrite (delete_found _ _ _ Hidx).
  - intros Huniq (b & rb & Hb & Hrb & Hbid). cbn [heap recipes] in *.
    apply list_elem_of_lookup_1 in Hb as (j & Hj).
    rewrite list_lookup_delete in Hj.
    assert ((if decide (j < index)%nat then j else S j) = index) as Heq.
    { eapply Huniq; [exact Hj | exact Hl | exact Hrb | exact Hr | congruence]. }
    destruct (decide (j < index)%nat); lia.
Qed.

(** X8: in every reachable store the slots of [recipes] hold distinct live
    objects, each with a non-empty id and with
    [createdAt <= updatedAt <= clock], the last clock reading. *)
Theorem reachable_store_invariant clock (w : World) :
  reachable clock w ->
  NoDup (recipes w)
  /\ forall a, a ∈ recipes w ->
       exists r, heap w !! a = Some r
                 /\ Recipe.id r <> []
                 /\ (Recipe.createdAt r <= Recipe.updatedAt r <= clock)%Z.
Proof.
  intros Hreach. pose proof (reachable_inv _ _ Hreach) as Hinv.
  split; [apply Hinv |]. intros a Ha.
  destruct (inv_live _ _ Hinv a Ha) as (r & Hr). exists r.
  split; [done |]. split; [by eapply inv_id | by eapply inv_dates].
Qed.

(** ** The handlers *)

Lemma POST_cases e formData w :
  (exists error, POST e formData w = (Failure 400 error, w)
                 /\ (trim (RecipeFormData.name formData) = []
                     \/ trim (RecipeFormData.ingredients formData) = []
                     \/ trim (RecipeFormData.instructions formData) = []))
  \/ (POST e formData w
        = (Success 201 (length (heap w)),
           snd (recipeStorage.create e formData w))
      /\ trim (RecipeFormData.name formData) <> []
      /\ trim (RecipeFormData.ingredients formData) <> []
      /\ trim (RecipeFormData.instructions formData) <> []).
Proof.
  unfold POST.
  destruct (trim (RecipeFormData.name formData)) eqn:E1;
    [left; eexists; split; [reflexivity | tauto] |].
  destruct (trim (RecipeFormData.ingredients formData)) eqn:E2;
    [left; eexists; split; [reflexivity | tauto] |].
  destruct (trim (RecipeFormData.instructions formData)) eqn:E3;
    [left; eexists; split; [reflexivity | tauto] |].
  right. cbn [truthy negb]. split; [|done].
  destruct (create_result e formData w) as (R & Hc & _).
  unfold mbind, M_bind. by rewrite Hc.
Qed.

Lemma PUT_cases e recipeId body w :
  (exists error, PUT e recipeId body w = (Failure 400 error, w))
  \/ (exists error, PUT e recipeId body w = (Failure 404 error, w))
  \/ (exists a w', PUT e recipeId body w = (Success 200 a, w')
                   /\ length (recipes w') = length (recipes w)).
Proof.
  unfold PUT. destruct (idGiven recipeId) as [id|]; [|left; by eexists].
  destruct (statusOnly body) as [status|].
  - unfold mbind, M_bind.
    destruct (find (hasId (heap w) id) (recipes w)) as [a|] eqn:Hfind.
    + rewrite (updateStatus_found _ _ _ _ _ Hfind).
      right; right. by do 2 eexists.
    + rewrite updateStatus_absent by done. right; left. by eexists.
  - destruct (negb _); [left; by eexists |].
    unfold mbind, M_bind.
    destruct (update_cases e id (PutBody.formData body) w)
      as [-> | (index & R & _ & -> & _)].
    + right; left. by eexists.
    + right; right. do 2 eexists. split; [reflexivity |].
      cbn [recipes]. apply length_insert.
Qed.

Lemma DELETE_cases recipeId w :
  (exists error, DELETE recipeId w = (Failure 400 error, w))
  \/ (exists error, DELETE recipeId w = (Failure 404 error, w))
  \/ (exists id w', DELETE recipeId w = (Success 200 id, w')
                    /\ S (length (recipes w')) = length (recipes w)).
Proof.
  unfold DELETE. destruct (idGiven recipeId) as [id|]; [|left; by eexists].
  unfold mbind, M_bind.
  destruct (findIndex (hasId (heap w) id) (recipes w)) as [index|] eqn:Hidx.
  - rewrite (delete_found _ _ _ Hidx). right; right. do 2 eexists.
    split; [reflexivity |]. cbn [recipes].
    destruct (findIndex_Some _ _ _ Hidx) as (a & Hl & _).
    rewrite length_delete by eauto.
    apply lookup_lt_Some in Hl. lia.
  - rewrite delete_absent by done. right; left. by eexists.
Qed.


(** X10: a POST that succeeds appends exactly one reference to [recipes], a
    DELETE that succeeds removes exactly one, and a PUT, whatever it
    answers, leaves the number of records as it was. *)
Theorem handlers_and_store_size :
  (forall e formData w status newRecipe,
     fst (POST e formData w) = Success status newRecipe ->
     status = 201%nat
     /\ recipes (snd (POST e formData w)) = recipes w ++ [newRecipe])
  /\ (forall e recipeId body w,
        length (recipes (snd (PUT e recipeId body w))) = length (recipes w))
  /\ (forall recipeId w status id,
        fst (DELETE recipeId w) = Success status id ->
        status = 200%nat
        /\ S (length (recipes (snd (DELETE recipeId w)))) = length (recipes w)).
Proof.
  split; [|split].
  - intros e formData w status newRecipe.
    destruct (POST_cases e formData w) as [(err & -> & _) | (-> & _)];
      cbn [fst snd]; [done |]. intros [= <- <-]. split; [done |].
    destruct (create_result e formData w) as (R & -> & _). reflexivity.
  - intros e recipeId body w.
    destruct (PUT_cases e recipeId body w)
      as [(err & ->) | [(err & ->) | (a & w' & -> & Hlen)]]; by cbn [snd].
  - intros recipeId w status id.
    destruct (DELETE_cases recipeId w)
      as [(err & ->) | [(err & ->) | (a & w' & -> & Hlen)]];
      cbn [fst snd]; [done.. |]. by intros [= <- _].
Qed.

(** X11: the handlers of the self-contained route file, which work on the
    array directly, answer and change the store exactly as the handlers that
    go through [recipeStorage]. *)
Theorem inline_routes_agree
    (unicodeLower : jsstring -> jsstring) (parseInt : jsstring -> option Z) :
  (forall params w,
     InlineRoutes.GET unicodeLower parseInt params w
     = GET unicodeLower parseInt params w)
  /\ (forall e formData w, InlineRoutes.POST e formData w = POST e formData w)
  /\ (forall e recipeId body w,
        InlineRoutes.PUT e recipeId body w = PUT e recipeId body w)
  /\ (forall recipeId w, InlineRoutes.DELETE recipeId w = DELETE recipeId w).
Proof.
  split; [|split; [|split]].
  - intros params w. unfold InlineRoutes.GET, GET. cbv zeta.
    unfold mbind, M_bind, getWorld. cbv beta iota.
    destruct (anyParameter _); reflexivity.
  - intros e formData w. unfold InlineRoutes.POST, POST.
    repeat (destruct (negb _); [reflexivity |]). reflexivity.
  - intros e recipeId body w. unfold InlineRoutes.PUT, PUT.
    change (orUndefined recipeId) with (idGiven recipeId).
    destruct (idGiven recipeId) as [id|]; [|reflexivity].
    destruct (statusOnly body) as [status|].
    + unfold recipeStorage.updateStatus, mbind, M_bind, getWorld.
      cbv beta iota.
      destruct (find (hasId (heap w) id) (recipes w)); reflexivity.
    + cbv zeta. destruct (negb _); [reflexivity |].
      unfold recipeStorage.update, mbind, M_bind, getWorld. cbv beta iota.
      destruct (findIndex (hasId (heap w) id) (recipes w)); [|reflexivity].
      destruct (convertFormDataToRecipe _ _ _ w). reflexivity.
  - intros recipeId w. unfold InlineRoutes.DELETE, DELETE.
    change (orUndefined recipeId) with (idGiven recipeId).
    destruct (idGiven recipeId) as [id|]; [|reflexivity].
    unfold recipeStorage.delete, mbind, M_bind, getWorld. cbv beta iota.
    destruct (findIndex (hasId (heap w) id) (recipes w)); reflexivity.
Qed.

(** X12: GET never changes the store and always answers 200 with what
    [search] returns for the filters read off the request, a subsequence of
    [recipes]; when no parameter is given (or all are empty, zero or not a
    number) that is [recipes] itself. *)
Theorem get_answers_search
    (unicodeLower : jsstring -> jsstring) (parseInt : jsstring -> option Z)
    (params : SearchParams.t) (w : World) :
  let filters := filtersOf parseInt params in
  let found := fst (recipeStorage.search unicodeLower filters w) in
  GET unicodeLower parseInt params w = (Success 200 found, w)
  /\ found `sublist_of` recipes w
  /\ (anyParameter filters = false -> found = recipes w).
Proof.
  cbv zeta. set (filters := filtersOf parseInt params).
  assert (Hnone : anyParameter filters = false ->
                  fst (recipeStorage.search unicodeLower filters w) = recipes w).
  { unfold anyParameter. rewrite !orb_false_iff.
    intros [[[Hq Hc] Hs] Hm]. rewrite search_keeps. cbn [fst].
    apply filter_all_true. intros a.
    unfold recipeStorage.keeps, recipeStorage.keepQuery,
      recipeStorage.keepCuisine, recipeStorage.keepStatus,
      recipeStorage.keepMaxPrepTime.
    rewrite Hq. apply bool_decide_eq_false in Hc, Hs.
    destruct (SearchFilters.cuisineType filters); [destruct Hc; by intros [=] |].
    destruct (SearchFilters.status filters); [destruct Hs; by intros [=] |].
    destruct (SearchFilters.maxPrepTime filters) as [m|]; [|done].
    cbn in Hm. apply negb_false_iff in Hm. by rewrite Hm. }
  split; [|split; [|done]].
  - unfold GET. cbv zeta. fold filters.
    destruct (anyParameter filters) eqn:Hany.
    + unfold mbind, M_bind. rewrite search_keeps. reflexivity.
    + rewrite (Hnone eq_refl). reflexivity.
  - rewrite search_keeps. cbn [fst]. apply sublist_filter.
Qed.

(** X13: the form's own check passes exactly when name, ingredients,
    instructions and cuisine type are not blank, the preparation time is
    between 1 and 500 and the servings between 1 and 20; a form that passes
    it is never refused by POST. *)
Theorem validateForm_accepts :
  (forall formData,
     RecipeForm.validateForm formData = true
     <-> trim (RecipeFormData.name formData) <> []
         /\ trim (RecipeFormData.ingredients formData) <> []
         /\ trim (RecipeFormData.instructions formData) <> []
         /\ trim (RecipeFormData.cuisineType formData) <> []
         /\ (1 <= RecipeFormData.preparationTime formData <= 500)%Z
         /\ (1 <= RecipeFormData.servings formData <= 20)%Z)
  /\ (forall e formData w,
        RecipeForm.validateForm formData = true ->
        fst (POST e formData w) = Success 201 (length (heap w))).
Proof.
  assert (Hiff : forall formData,
     RecipeForm.validateForm formData = true
     <-> trim (RecipeFormData.name formData) <> []
         /\ trim (RecipeFormData.ingredients formData) <> []
         /\ trim (RecipeFormData.instructions formData) <> []
         /\ trim (RecipeFormData.cuisineType formData) <> []
         /\ (1 <= RecipeFormData.preparationTime formData <= 500)%Z
         /\ (1 <= RecipeFormData.servings formData <= 20)%Z).
  { intros formData. unfold RecipeForm.validateForm, RecipeForm.newErrors.
    destruct (trim (RecipeFormData.name formData));
    destruct (trim (RecipeFormData.ingredients formData));
    destruct (trim (RecipeFormData.instructions formData));
    destruct (trim (RecipeFormData.cuisineType formData));
    destruct (Z.ltb_spec (RecipeFormData.preparationTime formData) 1);
    destruct (Z.ltb_spec 500 (RecipeFormData.preparationTime formData));
    destruct (Z.ltb_spec (RecipeFormData.servings formData) 1);
    destruct (Z.ltb_spec 20 (RecipeFormData.servings formData));
    cbn; split; try done; try (intros (?&?&?&?&?&?); try done; lia);
    intros _; repeat split; try done; lia. }
  split; [exact Hiff |].
  intros e formData w (Hn & Hi & Hs & _)%Hiff.
  destruct (POST_cases e formData w) as [(err & _ & [H|[H|H]]) | (-> & _)];
    done.
Qed.

(** ** More on the query filter *)

(** X14: with a maximal preparation time [m] as the only criterion, [search]
    returns exactly the stored recipes whose preparation time is at most
    [m], unless [m] is 0: a limit of 0 is not a criterion and every recipe
    is returned. *)
Theorem search_by_maxPrepTime
    (unicodeLower : jsstring -> jsstring) (m : Z) (w : World) :
  let found :=
    fst (recipeStorage.search unicodeLower
           (SearchFilters.mk [] None None (Some m)) w) in
  (m = 0%Z -> found = recipes w)
  /\ (m <> 0%Z ->
      forall a,
        a ∈ found
        <-> a ∈ recipes w
            /\ exists r,
                 heap w !! a = Some r
                 /\ (RecipeMetadata.preparationTime (Recipe.metadata r) <= m)%Z).
Proof.
  cbv zeta. rewrite search_keeps. cbn [fst]. split.
  - intros ->. by apply filter_all_true.
  - intros Hm a. rewrite list_elem_of_filter.
    unfold recipeStorage.keeps, recipeStorage.keepQuery,
      recipeStorage.keepCuisine, recipeStorage.keepStatus,
      recipeStorage.keepMaxPrepTime, recipeStorage.withinPrepTime, deref.
    cbn [SearchFilters.query SearchFilters.cuisineType SearchFilters.status
         SearchFilters.maxPrepTime truthy andb].
    destruct (Z.eqb_spec m 0) as [|_]; [done |].
    destruct (heap w !! a) as [r|].
    + rewrite Is_true_true, Z.leb_le. split.
      * intros [H Ha]. split; [done |]. by exists r.
      * intros [Ha (r' & [= <-] & H)]. by split.
    + split; [by intros [[] _] | by intros [_ (r & [=] & _)]].
Qed.

(** X15: [search] compares lower-cased texts: two non-empty queries, and two
    non-empty cuisine types, that are equal once lower-cased give the same
    result.  On ASCII text that is equality up to the case of letters. *)
Theorem search_case_insensitive
    (unicodeLower : jsstring -> jsstring)
    (q1 q2 c1 c2 : jsstring) (status : option RecipeStatus)
    (maxPrepTime : option Z) (w : World) :
  q1 <> [] -> q2 <> [] ->
  toLowerCase unicodeLower q1 = toLowerCase unicodeLower q2 ->
  c1 <> [] -> c2 <> [] ->
  toLowerCase unicodeLower c1 = toLowerCase unicodeLower c2 ->
  recipeStorage.search unicodeLower
    (SearchFilters.mk q1 (Some c1) status maxPrepTime) w
  = recipeStorage.search unicodeLower
      (SearchFilters.mk q2 (Some c2) status maxPrepTime) w.
Proof.
  intros Hq1 Hq2 Hq Hc1 Hc2 Hc. rewrite !search_keeps. f_equal.
  apply filter_ext_bool. intros a.
  unfold recipeStorage.keeps, recipeStorage.keepQuery,
    recipeStorage.keepCuisine, recipeStorage.matchesCuisine.
  cbn [SearchFilters.query SearchFilters.cuisineType].
  rewrite !truthy_nonempty by done. by rewrite Hq, Hc.
Qed.

Lemma search_italian_any_case :
  let upper := SearchFilters.mk (js "ITALIAN") (Some (js "ITALIAN")) None None in
  let lower := SearchFilters.mk (js "italian") (Some (js "Italian")) None None in
  recipeStorage.search asciiOnly upper initialWorld
  = recipeStorage.search asciiOnly lower initialWorld
  /\ fst (recipeStorage.search asciiOnly upper initialWorld) = [0%nat].
Proof.
  cbv zeta. split; [|reflexivity].
  apply (search_case_insensitive asciiOnly); by vm_compute.
Defined.

(** ** The page and the suggestion panel *)


Lemma generated_from_templates unicodeLower ingredients preferences s :
  s ∈ generateSmartSuggestions unicodeLower ingredients preferences ->
  s ∈ templates.
Proof.
  unfold generateSmartSuggestions, slice0. cbv zeta. intros Hs.
  apply (sublist_subseteq _ _ (sublist_take _ _)) in Hs.
  apply (sublist_subseteq _ _
           (filteredSuggestions_sublist unicodeLower ingredients preferences)) in Hs.
  by apply (sublist_subseteq _ _ (suggestions_templates unicodeLower ingredients)).
Qed.

(** X17: choosing a candidate of the rule-based generator and saving it
    through the form always succeeds and keeps its name, cuisine type,
    instructions and tags, but not its ingredients: every template has
    ingredient lines with a comma, which the parser splits, so the stored
    recipe has more ingredients than the candidate. *)
Theorem saved_suggestion_splits_ingredients
    (unicodeLower : jsstring -> jsstring) (ingredients preferences : jsstring)
    (e : Env) (w : World) (s : SuggestedRecipe.t) :
  s ∈ generateSmartSuggestions unicodeLower ingredients preferences ->
  exists R,
    POST e (RecipeSuggestions.convertToFormData s) w
      = (Success 201 (length (heap w)),
         mkWorld (heap w ++ [R]) (recipes w ++ [length (heap w)]))
    /\ Recipe.name R = SuggestedRecipe.name s
    /\ Recipe.instructions R = SuggestedRecipe.instructions s
    /\ RecipeMetadata.tags (Recipe.metadata R) = SuggestedRecipe.tags s
    /\ (length (SuggestedRecipe.ingredients s)
        < length (Recipe.ingredients R))%nat.
Proof.
  intros Hs%generated_from_templates.
  destruct (create_appends e (RecipeSuggestions.convertToFormData s) w)
    as (R & Hc & _ & Hn & Hi & Hins & Ht).
  exists R. rewrite Hn, Hi, Hins, Ht.
  destruct (POST_cases e (RecipeSuggestions.convertToFormData s) w)
    as [(err & _ & Hblank) | (-> & _)].
  - exfalso. unfold templates in Hs.
    repeat (apply elem_of_cons in Hs as [->|Hs];
            [vm_compute in Hblank;
             destruct Hblank as [H|[H|H]]; discriminate H |]).
    by apply elem_of_nil in Hs.
  - rewrite Hc. cbn [snd]. split; [done |]. unfold templates in Hs.
    repeat (apply elem_of_cons in Hs as [->|Hs];
            [repeat split; [by vm_compute.. | vm_compute; lia] |]).
    by apply elem_of_nil in Hs.
Qed.

(** ** The suggestion route *)

Lemma trim_length_nonempty (s : jsstring) :
  (3 <= length (trim s))%nat -> truthy s = true.
Proof. destruct s; [cbn; lia | done]. Qed.

(** X18: for a string of ingredients with at least 3 characters once trimmed
    and preferences that are a string or missing, the suggestion POST never
    answers with an error, whatever the external service does: either the
    service is configured and gave a non-empty list of valid suggestions,
    which is returned, or the answer is what the rules generate, marked
    "fallback" when the service is configured and "smart-suggestions" when
    it is not. *)
Theorem suggestions_always_answered
    (unicodeLower : jsstring -> jsstring) (hasOpenAI : bool)
    (ai : SuggestionsRoute.AiOutcome)
    (ingredients : jsstring) (preferences : option jsstring) :
  (3 <= length (trim ingredients))%nat ->
  let answer :=
    SuggestionsRoute.POST unicodeLower hasOpenAI ai
      (Some (JString ingredients)) (JString <$> preferences) in
  (exists data,
     answer = SuggestionsRoute.FromOpenAI data
     /\ hasOpenAI = true
     /\ SuggestionsRoute.validSuggestions ai = Some data)
  \/ (answer
      = SuggestionsRoute.FromRules
          (generateSmartSuggestions unicodeLower ingredients
             (default [] preferences))
          (if hasOpenAI then js "fallback" else js "smart-suggestions")
      /\ (hasOpenAI = false \/ SuggestionsRoute.validSuggestions ai = None)).
Proof.
  intros Hlen. cbv zeta. unfold SuggestionsRoute.POST.
  rewrite (trim_length_nonempty _ Hlen). cbn [negb].
  destruct (Nat.ltb_spec (length (trim ingredients)) 3) as [|_]; [lia |].
  assert (Hfb : SuggestionsRoute.fallback unicodeLower hasOpenAI ingredients
                  (JString <$> preferences)
                = SuggestionsRoute.FromRules
                    (generateSmartSuggestions unicodeLower ingredients
                       (default [] preferences))
                    (if hasOpenAI then js "fallback" else js "smart-suggestions")).
  { unfold SuggestionsRoute.fallback. destruct preferences as [[|c p]|]; done. }
  destruct hasOpenAI.
  - destruct (SuggestionsRoute.validSuggestions ai) as [data|] eqn:Hv.
    + left. by exists data.
    + right. rewrite Hfb. split; [done | by right].
  - right. rewrite Hfb. split; [done | by left].
Qed.

Lemma validRecipe_object (recipe : Json) :
  SuggestionsRoute.validRecipe recipe = Some true ->
  exists fields, recipe = JObject fields.
Proof.
  destruct recipe; cbn; try done. intros _. by eexists.
Qed.

Lemma filterValid_Some (suggestions valid : list Json) :
  SuggestionsRoute.filterValid suggestions = Some valid ->
  valid `sublist_of` suggestions
  /\ Forall (fun r => SuggestionsRoute.validRecipe r = Some true) valid
  /\ JNull ∉ suggestions.
Proof.
  revert valid. induction suggestions as [|r l IH]; intros valid; cbn.
  - intros [= <-]. split; [constructor |]. split; [constructor |].
    by intros ?%elem_of_nil.
  - destruct (SuggestionsRoute.validRecipe r) as [keep|] eqn:Hr; [|done].
    destruct (SuggestionsRoute.filterValid l) as [rest|]; [|done].
    destruct (IH rest eq_refl) as (Hsub & Hall & Hnull).
    assert (Hr0 : r <> JNull) by (intros ->; done).
    intros [= <-]. destruct keep.
    + split; [by constructor |]. split; [by constructor |].
      intros [?|?]%elem_of_cons; [congruence | done].
    + split; [by constructor |]. split; [done |].
      intros [?|?]%elem_of_cons; [congruence | done].
Qed.

(** X19: suggestions are returned from the external service only when it is
    configured and its reply parsed to a non-empty array: the data are then
    a non-empty subsequence of that array, each element an object with a
    truthy name, description, cuisine type and difficulty, arrays for
    ingredients, instructions and tags, and numbers for preparation time
    and servings.  A single [null] in the array makes the handler drop the
    whole reply. *)
Theorem openai_data_validated :
  (forall unicodeLower hasOpenAI ai ingredients preferences data,
     SuggestionsRoute.POST unicodeLower hasOpenAI ai ingredients preferences
     = SuggestionsRoute.FromOpenAI data ->
     hasOpenAI = true
     /\ data <> []
     /\ exists suggestions,
          ai = SuggestionsRoute.AiParsed (JArray suggestions)
          /\ data `sublist_of` suggestions
          /\ Forall (fun r =>
                       SuggestionsRoute.validRecipe r = Some true
                       /\ exists fields, r = JObject fields) data)
  /\ (forall suggestions,
        JNull ∈ suggestions ->
        SuggestionsRoute.validSuggestions
          (SuggestionsRoute.AiParsed (JArray suggestions)) = None).
Proof.
  assert (Hvalid : forall ai data,
            SuggestionsRoute.validSuggestions ai = Some data ->
            data <> []
            /\ exists suggestions,
                 ai = SuggestionsRoute.AiParsed (JArray suggestions)
                 /\ data `sublist_of` suggestions
                 /\ Forall (fun r =>
                              SuggestionsRoute.validRecipe r = Some true
                              /\ exists fields, r = JObject fields) data).
  { intros ai data. unfold SuggestionsRoute.validSuggestions.
    destruct ai as [| | |[| | | |suggestions|]]; try done.
    destruct (0 <? length suggestions)%nat; [|done].
    destruct (SuggestionsRoute.filterValid suggestions) as [valid|] eqn:Hf;
      [|done].
    destruct (Nat.ltb_spec 0 (length valid)); [|done]. intros [= <-].
    destruct (filterValid_Some _ _ Hf) as (Hsub & Hall & _).
    split; [by destruct valid; [cbn in *; lia |] |].
    exists suggestions. split; [done |]. split; [done |].
    eapply Forall_impl; [exact Hall |]. intros r Hr.
    split; [done | by apply validRecipe_object]. }
  split.
  - intros unicodeLower hasOpenAI ai ingredients preferences data.
    unfold SuggestionsRoute.POST.
    destruct ingredients as [[| | |s| |]|]; try done.
    destruct (negb _); [done |]. destruct (_ <? _)%nat; [done |].
    destruct hasOpenAI.
    + destruct (SuggestionsRoute.validSuggestions ai) as [valid|] eqn:Hv.
      * intros [= <-]. split; [done |]. by apply Hvalid.
      * unfold SuggestionsRoute.fallback.
        destruct (SuggestionsRoute.truthyJson preferences);
          [destruct preferences as [[| | |p| |]|] |]; done.
    + unfold SuggestionsRoute.fallback.
      destruct (SuggestionsRoute.truthyJson preferences);
        [destruct preferences as [[| | |p| |]|] |]; done.
  - intros suggestions Hnull. unfold SuggestionsRoute.validSuggestions.
    destruct (0 <? length suggestions)%nat; [|done].
    destruct (SuggestionsRoute.filterValid suggestions) as [valid|] eqn:Hf;
      [|done].
    by destruct (filterValid_Some _ _ Hf) as (_ & _ & Habs).
Qed.

(** X20: preferences that are neither a string nor falsy (a number other than
    0, [true], an array, an object) make the rule-based path throw: unless
    the external service delivered valid suggestions, the handler answers
    500 although the ingredients are valid. *)
Theorem non_string_preferences_fail
    (unicodeLower : jsstring -> jsstring) (hasOpenAI : bool)
    (ai : SuggestionsRoute.AiOutcome)
    (ingredients : jsstring) (preferences : Json) :
  (3 <= length (trim ingredients))%nat ->
  SuggestionsRoute.truthyJson (Some preferences) = true ->
  (forall p, preferences <> JString p) ->
  hasOpenAI = false \/ SuggestionsRoute.validSuggestions ai = None ->
  SuggestionsRoute.POST unicodeLower hasOpenAI ai
    (Some (JString ingredients)) (Some preferences)
  = SuggestionsRoute.Rejected 500 (js "Failed to generate recipe suggestions").
Proof.
  intros Hlen Htruthy Hnot Hai. unfold SuggestionsRoute.POST.
  rewrite (trim_length_nonempty _ Hlen). cbn [negb].
  destruct (Nat.ltb_spec (length (trim ingredients)) 3) as [|_]; [lia |].
  assert (Hfb : SuggestionsRoute.fallback unicodeLower hasOpenAI ingredients
                  (Some preferences)
                = SuggestionsRoute.Rejected 500
                    (js "Failed to generate recipe suggestions")).
  { unfold SuggestionsRoute.fallback. rewrite Htruthy.
    destruct preferences; try done. by destruct (Hnot s). }
  destruct Hai as [-> | Hv]; [done |].
  destruct hasOpenAI; [by rewrite Hv | done].
Qed.

(** * Further instances *)

Lemma untidy_form_stored_canonical :
  exists r,
    heap (exec sampleEnv (OpCreate untidyForm) initialWorld) !! 2%nat = Some r
    /\ canonicalRecipe r
    /\ Recipe.name r = js "Broth"
    /\ Recipe.ingredients r = [js "water"; js "salt"]
    /\ Recipe.instructions r = [js "boil"; js "season"]
    /\ RecipeMetadata.tags (Recipe.metadata r) = [js "soup"].
Proof.
  eexists. split; [reflexivity |]. split; [|repeat split].
  apply (reachable_records_canonical (now sampleEnv)
           (exec sampleEnv (OpCreate untidyForm) initialWorld) 2%nat).
  - apply (reach_step _ _ sampleEnv (OpCreate untidyForm) reach_init).
    by vm_compute.
  - apply list_elem_of_further, list_elem_of_further, list_elem_of_here.
  - reflexivity.
Defined.

Lemma edit_seed2_without_change :
  exists updated R w',
    recipeStorage.update sampleEnv (js "2") (RecipeForm.formOfRecipe seed2)
      initialWorld = (Some updated, w')
    /\ heap w' !! updated = Some R
    /\ Recipe.name R = Recipe.name seed2
    /\ Recipe.ingredients R = Recipe.ingredients seed2
    /\ Recipe.instructions R = Recipe.instructions seed2
    /\ Recipe.metadata R = Recipe.metadata seed2
    /\ Recipe.status seed2 = made
    /\ Recipe.status R = to_try.
Proof.
  destruct (edit_without_change _ initialWorld sampleEnv (js "2") reach_init)
    as (original & r & updated & R & w' & Hg & Hr & Hu & Hh & _ & Hn & Hi
        & Hs & Hm & _ & Hst & _).
  { exists 1%nat, seed2.
    split; [apply list_elem_of_further, list_elem_of_here | split; reflexivity]. }
  injection Hg as <-. injection Hr as <-.
  exists updated, R, w'. repeat split; assumption.
Defined.

Lemma create_tacos_then_getById :
  fst (recipeStorage.getById (generateId sampleEnv)
         (snd (recipeStorage.create sampleEnv tacos initialWorld)))
  = Some 2%nat.
Proof.
  exact (create_then_getById _ initialWorld sampleEnv tacos reach_init).
Defined.

Lemma update_seed1_in_place :
  exists w',
    recipeStorage.update sampleEnv (js "1") tacos initialWorld = (Some 2%nat, w')
    /\ recipes w' = [2; 1]%nat
    /\ fst (recipeStorage.getById (js "1") w') = Some 2%nat.
Proof.
  destruct (update_replaces_in_place _ initialWorld sampleEnv (js "1") tacos
              reach_init present_seed1)
    as (index & updated & w' & Hi & Hu & Hr & _ & _ & _ & _ & Hg).
  injection Hi as <-.
  assert (updated = 2%nat) as ->.
  { pose proof Hu as Hu'. vm_compute in Hu'. by injection Hu' as <- _. }
  exists w'. split; [exact Hu |]. split; [exact Hr | exact Hg].
Defined.

Lemma delete_seed1 :
  exists w',
    recipeStorage.delete (js "1") initialWorld = (true, w')
    /\ recipes w' = [1%nat]
    /\ heap w' = heap initialWorld.
Proof.
  destruct (delete_removes_first_match initialWorld (js "1") present_seed1)
    as (index & w' & Hi & Hd & Hh & Hr & _).
  injection Hi as <-. exists w'. split; [exact Hd |]. split; [exact Hr | exact Hh].
Defined.

Lemma invariant_after_two_operations :
  let w := exec sampleEnv (OpUpdateStatus (js "1") made)
             (exec sampleEnv (OpCreate untidyForm) initialWorld) in
  recipes w = [0; 1; 2]%nat /\ NoDup (recipes w).
Proof.
  cbv zeta. split; [reflexivity |].
  apply (reachable_store_invariant (now sampleEnv)).
  apply (reach_step (now sampleEnv) _ sampleEnv (OpUpdateStatus (js "1") made)).
  - apply (reach_step _ _ sampleEnv (OpCreate untidyForm) reach_init).
    by vm_compute.
  - by vm_compute.
Defined.

Lemma save_rice_pilaf :
  exists R w',
    POST sampleEnv (RecipeSuggestions.convertToFormData savoryRicePilaf)
      initialWorld = (Success 201 2%nat, w')
    /\ heap w' !! 2%nat = Some R
    /\ Recipe.instructions R = SuggestedRecipe.instructions savoryRicePilaf
    /\ length (SuggestedRecipe.ingredients savoryRicePilaf) = 7%nat
    /\ (7 < length (Recipe.ingredients R))%nat.
Proof.
  destruct (saved_suggestion_splits_ingredients asciiOnly (js "rice") []
              sampleEnv initialWorld savoryRicePilaf)
    as (R & HP & _ & Hi & _ & Hlen).
  { apply list_elem_of_here. }
  exists R. eexists. split; [exact HP |]. cbn [heap].
  split; [reflexivity |]. split; [exact Hi |]. split; [reflexivity | exact Hlen].
Defined.

Lemma rice_answered_without_service :
  SuggestionsRoute.POST asciiOnly true SuggestionsRoute.AiThrew
    (Some (JString (js "rice"))) None
  = SuggestionsRoute.FromRules [savoryRicePilaf] (js "fallback")
  /\ SuggestionsRoute.POST asciiOnly true (SuggestionsRoute.AiParsed sampleReply)
       (Some (JString (js "rice"))) None
     = SuggestionsRoute.FromOpenAI
         (match sampleReply with JArray (r :: _) => [r] | _ => [] end).
Proof.
  split.
  - destruct (suggestions_always_answered asciiOnly true SuggestionsRoute.AiThrew
                (js "rice") None) as [(data & _ & _ & Hv) | [H _]].
    + vm_compute. lia.
    + discriminate Hv.
    + exact H.
  - reflexivity.
Defined.

Lemma number_as_preferences :
  SuggestionsRoute.POST asciiOnly false SuggestionsRoute.AiThrew
    (Some (JString (js "rice"))) (Some (JNumber 5))
  = SuggestionsRoute.Rejected 500 (js "Failed to generate recipe suggestions").
Proof.
  apply non_string_preferences_fail.
  - vm_compute. lia.
  - reflexivity.
  - intros p. discriminate.
  - by left.
Defined.
